(** * Spread-sheet query layer: a shallow embedding and its properties

    The development follows [src/server/utils/spread-sheet-query/index2.ts]
    (schema as an ordered array of [{name, type}], positional codec, session
    closures, lock-guarded runner) and, for the column index resolver,
    [src/server/utils/sheetQuery/index.ts] ([getColumnIndices]).

    JavaScript data is rendered as follows.
    - A string is a [string]; its characters stand for code units below 256.
    - A sheet cell ([SheetValue = boolean | number | string | Date]) is a
      [SheetValue]; reading past the end of an array or a missing property
      gives [VUndefined].  Numbers and dates are only carried around, never
      computed with, so their payload is an integer.
    - A record (a JS object used as a map from column name to value) is a
      [gmap string SheetValue], looked up among its own properties.  Where
      the code tests a schema object with [columnType[h] !== undefined], the
      properties every object inherits from [Object.prototype] count as
      well ([hasProperty]).
    - Code that may throw returns an [Outcome]; code that touches the
      spreadsheet or a closure variable is a function on a [Heap]. *)

From Stdlib Require Import ZArith Ascii String List.
From stdpp Require Import base option list gmap strings.

Local Open Scope string_scope.
Local Open Scope Z_scope.
Local Open Scope list_scope.

(** ** Values *)

Inductive SheetValue : Type :=
| VUndefined
| VBool (b : bool)
| VNum (n : Z)
| VStr (s : string)
| VDate (ms : Z).

#[global] Instance SheetValue_eq_dec : EqDecision SheetValue.
Proof. solve_decision. Defined.

(** [TypeName] is [(typeof TYPE_NAMES)[number]].  The constant [TYPE_NAMES]
    (constants/utils) is not among the sources.  The seven names below are
    the ones [ToTypeName] and [ToActualType] ([types/utils]) and
    [intoDefaultValue] ([sheetQuery/utils.ts]) enumerate; that the constant
    holds these names and no other is an assumption, and nothing below
    rests on a name being absent from this list. *)
Inductive TypeName : Type :=
| TString | TNumber | TBoolean | TUndefined | TSymbol | TObject | TBigint.

#[global] Instance TypeName_eq_dec : EqDecision TypeName.
Proof. solve_decision. Defined.

Definition typeNameString (t : TypeName) : string :=
  match t with
  | TString => "string"
  | TNumber => "number"
  | TBoolean => "boolean"
  | TUndefined => "undefined"
  | TSymbol => "symbol"
  | TObject => "object"
  | TBigint => "bigint"
  end.

(** [type ColumnType = { readonly name: Header; readonly type: Name }] *)
Record ColumnType : Type := createColumnType {
  name : string;
  type : TypeName;
}.

#[global] Instance ColumnType_eq_dec : EqDecision ColumnType.
Proof. solve_decision. Defined.

(** [type SheetQueryConfig = { readonly id: number; readonly columnTypes }] *)
Record SheetQueryConfig : Type := createQueryConfig {
  id : Z;
  columnTypes : list ColumnType;
}.

Abbreviation SheetRecord := (gmap string SheetValue).
Abbreviation DataTable := (list (list SheetValue)).

(** [row[index]] on a JS array. *)
Definition arrayGet (row : list SheetValue) (index : nat) : SheetValue :=
  default VUndefined (row !! index).

(** [record[name]] on a JS object. *)
Definition recordGet (record : SheetRecord) (key : string) : SheetValue :=
  default VUndefined (record !! key).

(** [Array.prototype.reduce] with the element index passed to the callback. *)
Fixpoint reduceFrom {A B : Type} (f : B -> A -> nat -> B)
    (acc : B) (index : nat) (l : list A) : B :=
  match l with
  | [] => acc
  | x :: l' => reduceFrom f (f acc x index) (S index) l'
  end.

Definition reduce {A B : Type} (f : B -> A -> nat -> B) (init : B) (l : list A) : B :=
  reduceFrom f init 0%nat l.

(** ** Record codec (index2.ts, lines 196-200 and 213-215) *)

(** [columnTypes.reduce((acc, { name }, index) =>
       ({ ...acc, [name]: row[index] }), {})] *)
Definition decodeRow (cts : list ColumnType) (row : list SheetValue) : SheetRecord :=
  reduce (fun acc ct index => <[name ct := arrayGet row index]> acc) ∅ cts.

(** [values.map((row) => columnTypes.reduce(...))] *)
Definition decode (cts : list ColumnType) (values : DataTable) : list SheetRecord :=
  map (decodeRow cts) values.

(** [columnTypes.map(({ name }) => record[name])] *)
Definition encodeRecord (cts : list ColumnType) (record : SheetRecord) : list SheetValue :=
  map (fun ct => recordGet record (name ct)) cts.

(** [__records.map((record) => columnTypes.map(...))] *)
Definition encode (cts : list ColumnType) (records : list SheetRecord) : DataTable :=
  map (encodeRecord cts) records.

(** The column names a schema declares, in schema order. *)
Definition columnNames (cts : list ColumnType) : list string := map name cts.

(** [__records.filter((r) => !condition(r))] (index2.ts, line 210) *)
Definition deleteIfRecords (condition : SheetRecord -> bool)
    (records : list SheetRecord) : list SheetRecord :=
  List.filter (fun r => negb (condition r)) records.

(** ** Regular expressions (the fragment [HEADER_REGEX] uses)

    A backtracking matcher in continuation-passing style, with the
    priorities of the ECMAScript matcher: a greedy star first tries one
    more iteration (an iteration that consumes nothing is rejected), an
    alternative tries its left branch first.  [pos] counts the characters
    consumed so far, [s] is the rest of the input. *)

Inductive regex : Type :=
| Empty
| Class (p : ascii -> bool)
| Cat (r1 r2 : regex)
| Alt (r1 r2 : regex)
| Star (r : regex)
| Group (n : nat) (r : regex)
| Bol
| Eol.

Abbreviation Captures := (gmap nat (list ascii)).

(** The continuation of a match: position, rest of the input, captures. *)
Definition Cont : Type := nat -> list ascii -> Captures -> option Captures.

(** Greedy iteration of a matcher [m1]: at most [fuel] iterations, each of
    which has to consume input. *)
Fixpoint starLoop (m1 : Cont -> Cont) (k : Cont) (fuel : nat) : Cont :=
  fun pos s c =>
    match fuel with
    | O => k pos s c
    | S fuel' =>
        match m1 (fun pos' s' c' =>
                    if (length s' <? length s)%nat
                    then starLoop m1 k fuel' pos' s' c' else None)
                 pos s c with
        | Some res => Some res
        | None => k pos s c
        end
    end.

Fixpoint rmatch (r : regex) (k : Cont) : Cont :=
  match r with
  | Empty => k
  | Class p =>
      fun pos s c =>
        match s with
        | a :: s' => if p a then k (S pos) s' c else None
        | [] => None
        end
  | Cat r1 r2 => rmatch r1 (rmatch r2 k)
  | Alt r1 r2 =>
      fun pos s c =>
        match rmatch r1 k pos s c with
        | Some res => Some res
        | None => rmatch r2 k pos s c
        end
  | Star r1 => fun pos s c => starLoop (rmatch r1) k (length s) pos s c
  | Group n r1 =>
      fun pos s c =>
        rmatch r1 (fun pos' s' c' => k pos' s' (<[n := take (pos' - pos) s]> c')) pos s c
  | Bol => fun pos s c => if (pos =? 0)%nat then k pos s c else None
  | Eol => fun pos s c => match s with [] => k pos s c | _ :: _ => None end
  end.

(** [r+] *)
Definition Plus (r : regex) : regex := Cat r (Star r).

(** A literal string. *)
Fixpoint Lit (l : list ascii) : regex :=
  match l with
  | [] => Empty
  | a :: l' => Cat (Class (fun b => bool_decide (b = a))) (Lit l')
  end.

(** [\s] on code units below 256: TAB, LF, VT, FF, CR, SPACE and NBSP. *)
Definition isWhiteSpace (a : ascii) : bool :=
  let n := nat_of_ascii a in
  ((9 <=? n) && (n <=? 13) || (n =? 32) || (n =? 160))%nat.

Definition lt_sign : ascii := "<"%char.
Definition gt_sign : ascii := ">"%char.

Definition notLt (a : ascii) : bool := negb (bool_decide (a = lt_sign)).

(** [(string|number|boolean|Date)] *)
Definition typeAlternatives : regex :=
  Alt (Lit (list_ascii_of_string "string"))
   (Alt (Lit (list_ascii_of_string "number"))
     (Alt (Lit (list_ascii_of_string "boolean"))
          (Lit (list_ascii_of_string "Date")))).

(** [const HEADER_REGEX =
      /^\s*(?:([^<]+)\s+<(string|number|boolean|Date)>)\s*$/] *)
Definition HEADER_REGEX : regex :=
  Cat Bol
   (Cat (Star (Class isWhiteSpace))
     (Cat (Group 1 (Plus (Class notLt)))
       (Cat (Plus (Class isWhiteSpace))
         (Cat (Class (fun a => bool_decide (a = lt_sign)))
           (Cat (Group 2 typeAlternatives)
             (Cat (Class (fun a => bool_decide (a = gt_sign)))
               (Cat (Star (Class isWhiteSpace)) Eol))))))).

(** [regex.exec(str)] for a regex without the [g] flag: the first start
    position, from the left, at which the regex matches. *)
Fixpoint execFrom (r : regex) (pos : nat) (s : list ascii) : option Captures :=
  match rmatch r (fun _ _ c => Some c) pos s ∅ with
  | Some c => Some c
  | None =>
      match s with
      | [] => None
      | _ :: s' => execFrom r (S pos) s'
      end
  end.

Definition exec (r : regex) (str : string) : option Captures :=
  execFrom r 0 (list_ascii_of_string str).

(** [matched?.[n]] *)
Definition matchedGroup (matched : option Captures) (n : nat) : option string :=
  match matched with
  | Some c => string_of_list_ascii <$> (c !! n)
  | None => None
  end.

(** The words a regex can consume (anchors consume nothing). *)
Inductive matches : regex -> list ascii -> Prop :=
| matches_empty : matches Empty []
| matches_class p a : p a = true -> matches (Class p) [a]
| matches_cat r1 r2 w1 w2 :
    matches r1 w1 -> matches r2 w2 -> matches (Cat r1 r2) (w1 ++ w2)
| matches_alt_l r1 r2 w : matches r1 w -> matches (Alt r1 r2) w
| matches_alt_r r1 r2 w : matches r2 w -> matches (Alt r1 r2) w
| matches_star_nil r : matches (Star r) []
| matches_star_cons r w1 w2 :
    matches r w1 -> matches (Star r) w2 -> matches (Star r) (w1 ++ w2)
| matches_group n r w : matches r w -> matches (Group n r) w
| matches_bol : matches Bol []
| matches_eol : matches Eol [].

(** A regex without capturing groups. *)
Fixpoint captureFree (r : regex) : bool :=
  match r with
  | Empty | Class _ | Bol | Eol => true
  | Cat r1 r2 | Alt r1 r2 => captureFree r1 && captureFree r2
  | Star r1 => captureFree r1
  | Group _ _ => false
  end.

(** What a successful run of a matcher [m] for a group-free regex [r] says:
    it consumed a word of [r] and the continuation succeeded on the rest,
    with the captures as they were. *)
Definition consumes (m : Cont -> Cont) (r : regex) : Prop :=
  forall k pos s c res,
    m k pos s c = Some res ->
    exists w s', s = w ++ s' /\ matches r w
                 /\ k (pos + length w)%nat s' c = Some res.

(** The grammar of an annotated header, [name <type>], spelled out: white
    space, a non-empty name without ['<'], white space (at least one
    character), the type between ['<'] and ['>'], white space. *)
Definition annotatedHeader (raw nm ty : list ascii) : Prop :=
  exists ws1 ws2 ws3,
    raw = ws1 ++ nm ++ ws2 ++ lt_sign :: ty ++ gt_sign :: ws3
    /\ Forall (fun a => isWhiteSpace a = true) ws1
    /\ nm <> [] /\ Forall (fun a => notLt a = true) nm
    /\ ws2 <> [] /\ Forall (fun a => isWhiteSpace a = true) ws2
    /\ string_of_list_ascii ty ∈ ["string"; "number"; "boolean"; "Date"]
    /\ Forall (fun a => isWhiteSpace a = true) ws3.

(** ** Errors, outcomes and results *)

(** The [Error] objects the code can produce.  A constructor stands for one
    [throw] site (its payload is what the message interpolates):
    - [HeaderNotString v]: [`Header does not type of string. (${v})`]
    - [HeaderNotProperlyDefined h]: [`Header does not properly defined. (${h})`]
    - [UnknownHeaders h]: [`Unknown headers are defined. (${h})`]
    - [NoSheetOfId id]: [`There's no sheet of id ${id}`]
    - [UnknownColumnName h]: [`Unknown column name: "${h}"`]
    - [TypeError what]: the engine's TypeError, on a property read of
      [undefined] or on a value that cannot be converted to a string
    - [LockTimeout], [InvalidRange]: exceptions of the lock and spreadsheet
      services
    - [UserError name message]: an [Error] object thrown by caller code
    - [ErrorOfValue v]: [new Error(`${v}`)], built by the runner from a
      thrown value that is not an [Error]. *)
Inductive Error : Type :=
| HeaderNotString (rawHeader : SheetValue)
| HeaderNotProperlyDefined (rawHeader : string)
| UnknownHeaders (rawHeader : string)
| NoSheetOfId (sheet_id : Z)
| UnknownColumnName (h : string)
| TypeError (what : string)
| LockTimeout (timeoutInMillis : Z)
| InvalidRange (numRows numColumns : nat)
| UserError (error_name message : string)
| ErrorOfValue (v : SheetValue).

#[global] Instance Error_eq_dec : EqDecision Error.
Proof. solve_decision. Defined.

(** What a [throw] carries: an [Error] instance, another value that has a
    string conversion, or a value whose conversion to a string itself throws
    a TypeError (a symbol, an object without prototype). *)
Inductive Thrown : Type :=
| ThrowError (e : Error)
| ThrowValue (v : SheetValue)
| ThrowUnconvertible.

Inductive Outcome (A : Type) : Type :=
| Normal (a : A)
| Abrupt (t : Thrown).

Arguments Normal {A} a.
Arguments Abrupt {A} t.

(** [Result<T, E> = Success<T, E> | Failure<E, T>] (utils/result). *)
Inductive Result (T E : Type) : Type :=
| Success (value : T)
| Failure (error : E).

Arguments Success {T E} value.
Arguments Failure {T E} error.

Definition Ok {T E : Type} (value : T) : Result T E := Success value.
Definition Err {T E : Type} (err : E) : Result T E := Failure err.

Definition isOk {T E : Type} (r : Result T E) : bool :=
  match r with Success _ => true | Failure _ => false end.

Definition isErr {T E : Type} (r : Result T E) : bool :=
  match r with Success _ => false | Failure _ => true end.

(** Stateful code that may throw. *)
Definition SE (S A : Type) : Type := S -> Outcome A * S.

Definition ret {S A : Type} (a : A) : SE S A := fun s => (Normal a, s).

Definition throw {S A : Type} (t : Thrown) : SE S A := fun s => (Abrupt t, s).

Definition bind {S A B : Type} (m : SE S A) (f : A -> SE S B) : SE S B :=
  fun s =>
    match m s with
    | (Normal a, s') => f a s'
    | (Abrupt t, s') => (Abrupt t, s')
    end.

Declare Scope se_scope.
Delimit Scope se_scope with se.
Notation "'do' x <- m ; k" := (bind m (fun x => k))
  (at level 10, x name, m at level 100, k at level 200) : se_scope.
Notation "m ;; k" := (bind m (fun _ => k))
  (at level 100, k at level 200, right associativity) : se_scope.

(** [try { body } catch (error) { handler(error) } finally { fin }]:
    the [finally] block runs on every path; when it completes normally the
    completion of the [try]/[catch] part stands. *)
Definition tryCatchFinally {S A : Type}
    (body : SE S A) (handler : Thrown -> SE S A) (fin : SE S unit) : SE S A :=
  fun s =>
    let '(o1, s1) := body s in
    let '(o2, s2) :=
      match o1 with
      | Normal a => (Normal a, s1)
      | Abrupt t => handler t s1
      end in
    match fin s2 with
    | (Normal _, s3) => (o2, s3)
    | (Abrupt t, s3) => (Abrupt t, s3)
    end.

(** [array.map(f)] with a callback that has effects and may throw. *)
Fixpoint mapM {S A B : Type} (f : A -> SE S B) (l : list A) : SE S (list B) :=
  match l with
  | [] => ret []
  | x :: l' =>
      (do y <- f x; do ys <- mapM f l'; ret (y :: ys))%se
  end.

(** [array.forEach(f)] with a callback that may throw. *)
Fixpoint forEach {A : Type} (f : A -> Outcome unit) (l : list A) : Outcome unit :=
  match l with
  | [] => Normal tt
  | x :: l' =>
      match f x with
      | Normal _ => forEach f l'
      | Abrupt t => Abrupt t
      end
  end.

(** ** Header validation (index2.ts, lines 145-173) *)

(** The body of the [headers.forEach] callback. *)
Definition validateHeader (cts : list ColumnType) (rawHeader : SheetValue) : Outcome unit :=
  match rawHeader with
  | VStr raw =>
      let matched := exec HEADER_REGEX raw in
      match matchedGroup matched 1, matchedGroup matched 2 with
      | Some header, Some derivedTypeName =>
          match List.find
                  (fun t => bool_decide (typeNameString (type t) = derivedTypeName)
                            && bool_decide (name t = header)) cts with
          | Some _ => Normal tt
          | None => Abrupt (ThrowError (UnknownHeaders raw))
          end
      | _, _ => Abrupt (ThrowError (HeaderNotProperlyDefined raw))
      end
  | _ => Abrupt (ThrowError (HeaderNotString rawHeader))
  end.

(** [const headers = sheetValues.slice(0, 1)[0]; headers.forEach(...)]:
    with no first row [headers] is [undefined] and the call throws. *)
Definition validateColumnTypes (sheetValues : DataTable) (cts : list ColumnType) : Outcome unit :=
  match sheetValues with
  | [] => Abrupt (ThrowError (TypeError "forEach"))
  | headers :: _ => forEach (validateHeader cts) headers
  end.

(** ** The spreadsheet and the session closures *)

(** A sheet of the active spreadsheet: [getSheetId()] and the grid that
    [getDataRange().getValues()] returns. *)
Record Sheet : Type := mkSheet {
  getSheetId : Z;
  getValues : DataTable;
}.

(** The mutable store: the sheets ([SpreadsheetApp.getActive().getSheets()],
    shared by every session opened on the same sheet) and the closure
    variables [__records], one per call of [createSheetQuery], in
    allocation order. *)
Record Heap : Type := mkHeap {
  sheets : list Sheet;
  variables : list (list SheetRecord);
}.

(** The spreadsheet service, as section 6 of the specification gives it
    ([writeRows(tableId, startRowIndex: 2, rows)]): a block of rows is laid
    over the grid from a start row on, first column first; cells outside the
    block keep their content and the grid stays rectangular, blank cells
    being empty strings. *)
Definition overlayRow (old new : list SheetValue) : list SheetValue :=
  new ++ drop (length new) old.

Fixpoint overlayRows (old new : DataTable) : DataTable :=
  match new with
  | [] => old
  | r :: new' =>
      match old with
      | [] => r :: overlayRows [] new'
      | o :: old' => overlayRow o r :: overlayRows old' new'
      end
  end.

Definition rectangular (grid : DataTable) : DataTable :=
  let width := foldr (fun row w => Nat.max (length row) w) 0%nat grid in
  map (fun row => row ++ replicate (width - length row) (VStr "")) grid.

Definition writeRows (grid : DataTable) (startRow : nat) (rows : DataTable) : DataTable :=
  let padded := grid ++ replicate (startRow - length grid) [] in
  rectangular (take startRow padded ++ overlayRows (drop startRow padded) rows).

(** [sheet.getRange(2, 1, numRows, numColumns).setValues(values)] on the
    sheet at position [ref] of [sheets]; [getRange] refuses a range with
    fewer than one row or one column. *)
Definition setValuesFromRow2 (ref : nat) (numRows numColumns : nat)
    (values : DataTable) : SE Heap unit :=
  fun h =>
    if ((numRows <? 1) || (numColumns <? 1))%nat
    then (Abrupt (ThrowError (InvalidRange numRows numColumns)), h)
    else
      (Normal tt,
       {| sheets := alter (fun sh => {| getSheetId := getSheetId sh;
                                        getValues := writeRows (getValues sh) 1 values |})
                          ref (sheets h);
          variables := variables h |}).

(** The object [createSheetQuery] returns: five closures over one variable
    [__records] and one sheet. *)
Record SheetQuery : Type := mkSheetQuery {
  read : SE Heap (list SheetRecord);
  set : list SheetRecord -> SE Heap unit;
  append : list SheetRecord -> SE Heap unit;
  deleteIf : (SheetRecord -> bool) -> SE Heap unit;
  commit : SE Heap unit;
}.

Section Closures.
(** [loc] is the variable [__records] of the session, [ref] its sheet and
    [cts] its [columnTypes]. *)
Variable loc : nat.
Variable ref : nat.
Variable cts : list ColumnType.

Definition getRecords (h : Heap) : list SheetRecord :=
  default [] (variables h !! loc).

Definition setRecords (records : list SheetRecord) (h : Heap) : Heap :=
  {| sheets := sheets h; variables := <[loc := records]> (variables h) |}.

(** [const read = () => __records] *)
Definition readImpl : SE Heap (list SheetRecord) :=
  fun h => (Normal (getRecords h), h).

(** [const set = (records) => { __records = records; }] *)
Definition setImpl (records : list SheetRecord) : SE Heap unit :=
  fun h => (Normal tt, setRecords records h).

(** [const append = (records) => { __records = [...__records, ...records]; }] *)
Definition appendImpl (records : list SheetRecord) : SE Heap unit :=
  fun h => (Normal tt, setRecords (getRecords h ++ records) h).

(** [const deleteIf = (condition) =>
      { __records = __records.filter((r) => !condition(r)); }] *)
Definition deleteIfImpl (condition : SheetRecord -> bool) : SE Heap unit :=
  fun h => (Normal tt, setRecords (deleteIfRecords condition (getRecords h)) h).

(** [const commit = () => {
       const values = __records.map(...);
       sheet.getRange(2, 1, values.length, values[0].length).setValues(values);
     }]: the arguments of [getRange] are evaluated before the call, and
    [values[0].length] throws when [values] is empty. *)
Definition commitImpl : SE Heap unit :=
  fun h =>
    let values := encode cts (getRecords h) in
    match values with
    | [] => (Abrupt (ThrowError (TypeError "length")), h)
    | row0 :: _ => setValuesFromRow2 ref (length values) (length row0) values h
    end.
End Closures.

(** [createSheetQuery({ id, columnTypes }, sheets)] (index2.ts, lines 175-227) *)
Definition createSheetQuery (config : SheetQueryConfig) : SE Heap SheetQuery :=
  fun h =>
    match list_find (fun s => getSheetId s = id config) (sheets h) with
    | None => (Abrupt (ThrowError (NoSheetOfId (id config))), h)
    | Some (ref, sheet) =>
        let sheetValues := getValues sheet in
        match validateColumnTypes sheetValues (columnTypes config) with
        | Abrupt t => (Abrupt t, h)
        | Normal _ =>
            let values := drop 1 sheetValues in
            let __records := decode (columnTypes config) values in
            let loc := length (variables h) in
            (Normal {| read := readImpl loc;
                       set := setImpl loc;
                       append := appendImpl loc;
                       deleteIf := deleteIfImpl loc;
                       commit := commitImpl loc ref (columnTypes config) |},
             {| sheets := sheets h; variables := variables h ++ [__records] |})
        end
    end.

(** ** The lock service and the transaction runner *)

Inductive LockCall : Type :=
| WaitLock (timeoutInMillis : Z) (acquired : bool)
| ReleaseLock.

#[global] Instance LockCall_eq_dec : EqDecision LockCall.
Proof. solve_decision. Defined.

(** The script lock: [busyFor] is the time, in milliseconds, for which
    another holder keeps it; [calls] records the calls made on it, the most
    recent first. *)
Record Lock : Type := mkLock {
  busyFor : Z;
  hasLock : bool;
  calls : list LockCall;
}.

Record World : Type := mkWorld {
  heap : Heap;
  lock : Lock;
}.

(** [lock.waitLock(timeoutInMillis)]: acquires the lock, or throws once the
    timeout has passed. *)
Definition waitLock (timeoutInMillis : Z) : SE World unit :=
  fun w =>
    if busyFor (lock w) <=? timeoutInMillis
    then (Normal tt,
          {| heap := heap w;
             lock := {| busyFor := busyFor (lock w); hasLock := true;
                        calls := WaitLock timeoutInMillis true :: calls (lock w) |} |})
    else (Abrupt (ThrowError (LockTimeout timeoutInMillis)),
          {| heap := heap w;
             lock := {| busyFor := busyFor (lock w); hasLock := hasLock (lock w);
                        calls := WaitLock timeoutInMillis false :: calls (lock w) |} |}).

(** [lock.releaseLock()] *)
Definition releaseLock : SE World unit :=
  fun w =>
    (Normal tt,
     {| heap := heap w;
        lock := {| busyFor := busyFor (lock w); hasLock := false;
                   calls := ReleaseLock :: calls (lock w) |} |}).

(** Code that only sees the sessions and the spreadsheet runs on the heap
    component of the world. *)
Definition liftHeap {A : Type} (m : SE Heap A) : SE World A :=
  fun w =>
    let '(o, h) := m (heap w) in
    (o, {| heap := h; lock := lock w |}).

(** [options?: Partial<{ timeouts: number }>] *)
Record Options : Type := mkOptions {
  timeouts : option Z;
}.

Definition defaultOptions : Options := {| timeouts := Some 5000 |}.

(** [options = options ?? defaultOptions;
     options.timeouts = options.timeouts ?? defaultOptions.timeouts;] *)
Definition effectiveTimeouts (options : option Options) : Z :=
  default 5000 (timeouts (default defaultOptions options)).

(** The [catch] clause of [useSheetQuery]; [console.error(error)] only
    logs.  For a value that is not an [Error] the clause evaluates
    [`${error}`], which throws when the value has no string conversion. *)
Definition catchClause {S T : Type} (error : Thrown) : SE S (Result T Error) :=
  match error with
  | ThrowError e => ret (Err e)
  | ThrowValue v => ret (Err (ErrorOfValue v))
  | ThrowUnconvertible => throw (ThrowError (TypeError "Cannot convert to string"))
  end.

(** [useSheetQuery(proc, configs, options)] (index2.ts, lines 232-267).
    The function is [async]: a normal outcome is the value its promise
    resolves to, an abrupt one a rejection. *)
Definition useSheetQuery {T : Type}
    (proc : list SheetQuery -> SE Heap T)
    (configs : list SheetQueryConfig)
    (options : option Options) : SE World (Result T Error) :=
  tryCatchFinally
    (waitLock (effectiveTimeouts options) ;;
     do queries <- liftHeap (mapM createSheetQuery configs);
     do value <- liftHeap (proc queries);
     ret (Ok value))%se
    catchClause
    releaseLock.

(** ** Column index resolver (sheetQuery/index.ts, lines 52-65) *)

(** [Array.prototype.reduce] with a callback that may throw. *)
Fixpoint reduceFromM {A B : Type} (f : B -> A -> nat -> Outcome B)
    (acc : B) (index : nat) (l : list A) : Outcome B :=
  match l with
  | [] => Normal acc
  | x :: l' =>
      match f acc x index with
      | Normal acc' => reduceFromM f acc' (S index) l'
      | Abrupt t => Abrupt t
      end
  end.

(** The properties a plain object inherits from [Object.prototype]. *)
Definition objectPrototypeKeys : list string :=
  ["constructor"; "hasOwnProperty"; "isPrototypeOf"; "propertyIsEnumerable";
   "toLocaleString"; "toString"; "valueOf"; "__proto__";
   "__defineGetter__"; "__defineSetter__"; "__lookupGetter__"; "__lookupSetter__"].

(** [columnType[h] !== undefined] on a plain object whose own properties
    hold type names: the property is an own one or an inherited one. *)
Definition hasProperty (columnType : gmap string TypeName) (h : string) : bool :=
  match columnType !! h with
  | Some _ => true
  | None => bool_decide (h ∈ objectPrototypeKeys)
  end.

(** [headers.reduce((acc, h, i) => {
       if (columnType[h] !== undefined) return { ...acc, [h]: i };
       throw new Error(`Unknown column name: "${h}"`);
     }, {})], where [columnType] is an object from column name to type
    name. *)
Definition getColumnIndices (headers : list string)
    (columnType : gmap string TypeName) : Outcome (gmap string nat) :=
  reduceFromM
    (fun acc h i =>
       if hasProperty columnType h
       then Normal (<[h := i]> acc)
       else Abrupt (ThrowError (UnknownColumnName h)))
    ∅ 0%nat headers.

(** The schema of index2.ts (an array of [{name, type}]) as the object from
    name to type that [getColumnIndices] expects. *)
Definition columnTypesObject (cts : list ColumnType) : gmap string TypeName :=
  foldl (fun acc ct => <[name ct := type ct]> acc) ∅ cts.

(** The map [getColumnIndices] builds when it meets no unknown column: each
    header cell is given its position, a later cell overriding an earlier
    one of the same text. *)
Definition indexFold (acc : gmap string nat) (i : nat) (headers : list string)
    : gmap string nat :=
  reduceFrom (fun m h index => <[h := index]> m) acc i headers.

(** The [Error] that catching a thrown value ends in: the [Error] itself or
    [new Error(...)], which the [catch] clause of the runner hands on, or
    the TypeError of the failed conversion, which it throws. *)
Definition asError (error : Thrown) : Error :=
  match error with
  | ThrowError e => e
  | ThrowValue v => ErrorOfValue v
  | ThrowUnconvertible => TypeError "Cannot convert to string"
  end.

(** A procedure that throws a symbol: [() => { throw Symbol(); }]. *)
Definition throwSymbol (queries : list SheetQuery) : SE Heap unit :=
  throw ThrowUnconvertible.

(** How many times [releaseLock] was called. *)
Definition releaseCount (log : list LockCall) : nat :=
  length (List.filter (fun c => bool_decide (c = ReleaseLock)) log).

(** ** The example of index2.ts (lines 287-342) *)

Definition GROUP_SHEET_ID : Z := 2000.

Definition GROUP_COLUMN_TYPES : list ColumnType :=
  [createColumnType "Group ID" TString;
   createColumnType "Name" TString;
   createColumnType "Ave. Grades" TNumber].

Definition groupQueryConfig : SheetQueryConfig :=
  createQueryConfig GROUP_SHEET_ID GROUP_COLUMN_TYPES.

Definition groupRecord (groupId groupName : string) (grades : Z) : SheetRecord :=
  <["Group ID" := VStr groupId]>
    (<["Name" := VStr groupName]> (<["Ave. Grades" := VNum grades]> ∅)).

(** [(v) => v["Ave. Grades"] > 1] *)
Definition gradesAboveOne (v : SheetRecord) : bool :=
  match recordGet v "Ave. Grades" with
  | VNum n => 1 <? n
  | _ => false
  end.

Definition groupHeader : list SheetValue :=
  [VStr "Group ID <string>"; VStr "Name <string>"; VStr "Ave. Grades <number>"].

(** A group sheet with two body rows, and one with the header row alone. *)
Definition groupSheet : Sheet :=
  {| getSheetId := GROUP_SHEET_ID;
     getValues := [groupHeader;
                   [VStr "0123"; VStr "aaa"; VNum 1];
                   [VStr "4567"; VStr "bbb"; VNum 6]] |}.

Definition emptyGroupSheet : Sheet :=
  {| getSheetId := GROUP_SHEET_ID; getValues := [groupHeader] |}.

Definition freeLock : Lock := {| busyFor := 0; hasLock := false; calls := [] |}.

Definition worldOf (sheet : Sheet) (l : Lock) : World :=
  {| heap := {| sheets := [sheet]; variables := [] |}; lock := l |}.

(** The group part of the example procedure: [set], [append], [deleteIf],
    [commit], then the records read back. *)
Definition groupProc (queries : list SheetQuery) : SE Heap (list SheetRecord) :=
  match queries with
  | [group] =>
      (set group [groupRecord "0123" "aaa" 1; groupRecord "4567" "bbb" 6] ;;
       append group [groupRecord "1234" "bbb" 2] ;;
       deleteIf group gradesAboveOne ;;
       commit group ;;
       read group)%se
  | _ => throw (ThrowError (TypeError "set"))
  end.

(** A procedure that only commits. *)
Definition commitProc (queries : list SheetQuery) : SE Heap unit :=
  match queries with
  | [group] => commit group
  | _ => throw (ThrowError (TypeError "commit"))
  end.

(** A sheet whose header lists the columns [A] and [B] of the schema in
    the order [B], [A]. *)
Definition swappedColumnTypes : list ColumnType :=
  [createColumnType "A" TString; createColumnType "B" TString].

Definition swappedSheet : Sheet :=
  {| getSheetId := 1000;
     getValues := [[VStr "B <string>"; VStr "A <string>"];
                   [VStr "b"; VStr "a"]] |}.

Definition busyLock : Lock := {| busyFor := 60000; hasLock := false; calls := [] |}.

(** The working set of a session opened on [groupSheet]. *)
Definition groupRecords : list SheetRecord :=
  [groupRecord "0123" "aaa" 1; groupRecord "4567" "bbb" 6].

(** The session [createSheetQuery] opens first on a fresh heap, for the
    group schema. *)
Definition groupQuery : SheetQuery :=
  {| read := readImpl 0;
     set := setImpl 0;
     append := appendImpl 0;
     deleteIf := deleteIfImpl 0;
     commit := commitImpl 0 0 GROUP_COLUMN_TYPES |}.

Definition groupHeap : Heap := {| sheets := [groupSheet]; variables := [] |}.

Definition groupHeapOpened : Heap :=
  {| sheets := [groupSheet]; variables := [groupRecords] |}.

(** ** Default values (sheetQuery/utils.ts) *)

(** The values [intoDefaultValue] returns.  A symbol and an object are
    told apart from other values only; their identity is not modelled. *)
Inductive JsValue : Type :=
| JsBoolean (b : bool)
| JsNumber (n : Z)
| JsString (s : string)
| JsUndefined
| JsSymbol
| JsObject
| JsBigint (n : Z).

(** [ToTypeName<T>] ([types/utils]) on the type of a value. *)
Definition ToTypeName (v : JsValue) : string :=
  match v with
  | JsBoolean _ => "boolean"
  | JsNumber _ => "number"
  | JsString _ => "string"
  | JsUndefined => "undefined"
  | JsSymbol => "symbol"
  | JsObject => "object"
  | JsBigint _ => "bigint"
  end.

(** [intoDefaultValue(name)]; the last line is
    [throw new Error("Unable to convert to type")]. *)
Definition intoDefaultValue (typeName : string) : Outcome JsValue :=
  if decide (typeName = "string") then Normal (JsString "")
  else if decide (typeName = "number") then Normal (JsNumber 0)
  else if decide (typeName = "boolean") then Normal (JsBoolean false)
  else if decide (typeName = "undefined") then Normal JsUndefined
  else if decide (typeName = "symbol") then Normal JsSymbol
  else if decide (typeName = "object") then Normal JsObject
  else if decide (typeName = "bigint") then Normal (JsBigint 0)
  else Abrupt (ThrowError (UserError "Error" "Unable to convert to type")).

(** ** The row codec of spread-sheet-query/index.ts (lines 66-128) *)

(** A raw row: a JS array, and the property ["undefined"] that
    [acc[columnIndices[k]] = v] sets on it when [k] has no index. *)
Record RawRow : Type := mkRawRow {
  cells : list SheetValue;
  undefinedProperty : option SheetValue;
}.

(** [acc[i] = v] on a JS array: past the end the array grows, the cells in
    between being holes, which read as [undefined]. *)
Definition arraySet (acc : list SheetValue) (i : nat) (v : SheetValue) : list SheetValue :=
  if (i <? length acc)%nat then <[i := v]> acc
  else acc ++ replicate (i - length acc) VUndefined ++ [v].

(** The callback of [recordIntoRawValues]:
    [(acc, [k, v]) => { acc[columnIndices[k] as number] = v; return acc; }] *)
Definition rawValuesStep (columnIndices : gmap string nat)
    (acc : RawRow) (entry : string * SheetValue) : RawRow :=
  match columnIndices !! entry.1 with
  | Some i => {| cells := arraySet (cells acc) i entry.2;
                 undefinedProperty := undefinedProperty acc |}
  | None => {| cells := cells acc; undefinedProperty := Some entry.2 |}
  end.

(** [Object.entries(record).reduce(..., [])].  The entries are enumerated in
    the order of the map, not in the insertion order of the JS object. *)
Definition recordIntoRawValues (record : SheetRecord)
    (columnIndices : gmap string nat) : RawRow :=
  foldl (rawValuesStep columnIndices)
        {| cells := []; undefinedProperty := None |} (map_to_list record).

(** [getter(row, key) = row[columnIndices[key]]] of [createRecordIO]. *)
Definition getter (columnIndices : gmap string nat) (row : RawRow) (key : string)
    : SheetValue :=
  match columnIndices !! key with
  | Some i => arrayGet (cells row) i
  | None => default VUndefined (undefinedProperty row)
  end.

(** [Object.keys(columnTypes).reduce((acc, k) =>
       ({ ...acc, [k]: fake(k) }), {})] *)
Definition fakeRecordIntoRecord (fake : string -> SheetValue)
    (columnTypes : gmap string TypeName) : SheetRecord :=
  foldl (fun acc k => <[k := fake k]> acc) ∅ (map_to_list columnTypes).*1.

(** ** Greedy iteration, spelled out *)

(** The order in which a greedy [(Class p)*] hands the input to its
    continuation: after the longest run [w] first, then after shorter and
    shorter prefixes of it. *)
Fixpoint firstSplit (k : Cont) (pos : nat) (w rest : list ascii) (c : Captures)
    : option Captures :=
  match w with
  | [] => k pos rest c
  | a :: w' =>
      match firstSplit k (S pos) w' rest c with
      | Some res => Some res
      | None => k pos (a :: w' ++ rest) c
      end
  end.

(** The header cell [name <type>] of a column. *)
Definition canonicalHeader (ct : ColumnType) : string :=
  String.append (name ct)
    (String.append " <" (String.append (typeNameString (type ct)) ">")).

(** A column name the header grammar can carry: not empty, no ['<'] in it,
    and its first character is not white space. *)
Definition plainName (s : string) : bool :=
  match list_ascii_of_string s with
  | [] => false
  | a :: l => negb (isWhiteSpace a) && forallb notLt (a :: l)
  end.

(** ** More of the example *)

(** The second session opened on a fresh heap, for the group schema. *)
Definition groupQuery1 : SheetQuery :=
  {| read := readImpl 1;
     set := setImpl 1;
     append := appendImpl 1;
     deleteIf := deleteIfImpl 1;
     commit := commitImpl 1 0 GROUP_COLUMN_TYPES |}.

Definition groupHeapOpenedTwice : Heap :=
  {| sheets := [groupSheet]; variables := [groupRecords; groupRecords] |}.

Definition emptyGroupHeapOpened : Heap :=
  {| sheets := [emptyGroupSheet]; variables := [[]] |}.

(** A procedure that replaces the working set, commits and then throws. *)
Definition commitThenThrow (queries : list SheetQuery) : SE Heap unit :=
  match queries with
  | [group] =>
      (set group [groupRecord "9999" "zzz" 9] ;;
       commit group ;;
       throw (ThrowError (UserError "Error" "after commit")))%se
  | _ => throw (ThrowError (TypeError "set"))
  end.

(** A schema as an object from column name to type name, and a header that
    lists its columns in another order. *)
Definition abColumnTypes : gmap string TypeName :=
  <["a" := TString]> (<["b" := TNumber]> ∅).

Definition abRecord : SheetRecord :=
  <["a" := VStr "x"]> (<["b" := VNum 1]> ∅).

(** * Properties *)

(** ** Record codec *)

Section Codec.
Implicit Types (cts : list ColumnType) (row : list SheetValue).
Implicit Types (record acc : SheetRecord) (k : string).

Lemma arrayGet_encodeRecord pre ct post record :
  arrayGet (encodeRecord (pre ++ ct :: post) record) (length pre)
  = recordGet record (name ct).
Proof.
  unfold arrayGet, encodeRecord.
  rewrite list_lookup_fmap, list_lookup_middle by done. done.
Qed.

(** Decoding an encoded record replays the schema, inserting under each
    column name the record's own value for that name. *)
Lemma decode_encode_fold record pre l acc :
  reduceFrom
    (fun acc ct index =>
       <[name ct := arrayGet (encodeRecord (pre ++ l) record) index]> acc)
    acc (length pre) l
  = foldl (fun acc ct => <[name ct := recordGet record (name ct)]> acc) acc l.
Proof.
  revert pre acc. induction l as [|ct l IH]; intros pre acc; [done|].
  cbn [reduceFrom foldl]. rewrite arrayGet_encodeRecord.
  specialize (IH (pre ++ [ct]) (<[name ct := recordGet record (name ct)]> acc)).
  rewrite <- (assoc_L (++)) in IH. cbn [app] in IH.
  rewrite length_app in IH. cbn [length] in IH.
  replace (length pre + 1)%nat with (S (length pre)) in IH by lia.
  exact IH.
Qed.

Lemma foldl_insert_lookup record l acc k :
  foldl (fun acc ct => <[name ct := recordGet record (name ct)]> acc) acc l !! k
  = if decide (k ∈ columnNames l) then Some (recordGet record k) else acc !! k.
Proof.
  revert acc. induction l as [|ct l IH]; intros acc.
  - cbn. case_decide as H; [by apply elem_of_nil in H | done].
  - cbn [foldl]. rewrite IH. unfold columnNames. cbn [map].
    destruct (decide (k ∈ map name l)) as [Hin|Hnin].
    + rewrite decide_True; [done | by right].
    + destruct (decide (k = name ct)) as [->|Hne].
      * rewrite decide_True by left. by rewrite lookup_insert_eq.
      * rewrite decide_False.
        { by rewrite lookup_insert_ne. }
        intros [?|?]%elem_of_cons; done.
Qed.

Lemma decodeRow_encodeRecord cts record :
  dom record = list_to_set (columnNames cts) ->
  decodeRow cts (encodeRecord cts record) = record.
Proof.
  intros Hdom. unfold decodeRow, reduce.
  pose proof (decode_encode_fold record [] cts ∅) as H.
  cbn [app length] in H. rewrite H. clear H.
  apply map_eq. intros k. rewrite foldl_insert_lookup.
  case_decide as Hk.
  - assert (k ∈ dom record) as [v Hv]%elem_of_dom.
    { rewrite Hdom. by apply elem_of_list_to_set. }
    unfold recordGet. by rewrite Hv.
  - rewrite lookup_empty. symmetry. apply not_elem_of_dom.
    rewrite Hdom. by rewrite elem_of_list_to_set.
Qed.
End Codec.

(** C1. Round-trip law of the record codec: for every schema and every list
    of records whose key sets are exactly the schema's column names,
    decoding the grid obtained by encoding the records gives the records
    back.  (In index2.ts the position of a column in the grid is its position
    in the schema.) *)
Theorem decode_encode_roundtrip (cts : list ColumnType) (records : list SheetRecord) :
  Forall (fun record => dom record = list_to_set (columnNames cts)) records ->
  decode cts (encode cts records) = records.
Proof.
  unfold decode, encode. induction 1 as [|record records Hdom _ IH]; [done|].
  cbn [map]. rewrite decodeRow_encodeRecord by done. by f_equal.
Qed.

(** ** Deleting records *)

Section DeleteIf.
Variable condition : SheetRecord -> bool.
Implicit Types records : list SheetRecord.

Lemma deleteIfRecords_sublist records :
  deleteIfRecords condition records `sublist_of` records.
Proof.
  unfold deleteIfRecords. induction records as [|r records IH]; cbn.
  - constructor.
  - destruct (condition r); cbn; by constructor.
Qed.

Lemma deleteIfRecords_elem_of records r :
  r ∈ deleteIfRecords condition records <-> r ∈ records /\ condition r = false.
Proof.
  unfold deleteIfRecords. rewrite !list_elem_of_In, filter_In.
  by rewrite negb_true_iff.
Qed.

Lemma deleteIfRecords_partition records :
  records ≡ₚ deleteIfRecords condition records ++ List.filter condition records.
Proof.
  unfold deleteIfRecords. induction records as [|r records IH]; cbn; [done|].
  destruct (condition r); cbn.
  - by rewrite <- Permutation_middle, <- IH.
  - by rewrite <- IH.
Qed.

Lemma deleteIfRecords_none records :
  (forall r, r ∈ records -> condition r = false) ->
  deleteIfRecords condition records = records.
Proof.
  unfold deleteIfRecords. induction records as [|r records IH]; intros H; cbn; [done|].
  rewrite (H r) by left. cbn. f_equal. apply IH. intros r' Hr'. apply H. by right.
Qed.
End DeleteIf.

Lemma getRecords_setRecords loc records h :
  (loc < length (variables h))%nat ->
  getRecords loc (setRecords loc records h) = records.
Proof.
  intros Hlt. unfold getRecords, setRecords. cbn.
  by rewrite list_lookup_insert_eq.
Qed.

(** C7. [deleteIf] removes exactly the records on which the predicate
    returns true and keeps the survivors in their relative order; when the
    predicate matches no record the working set is unchanged.  The session's
    variable is [loc]; the spreadsheet is not touched. *)
Theorem deleteIf_removes_matching (loc : nat) (condition : SheetRecord -> bool) (h : Heap) :
  (loc < length (variables h))%nat ->
  let before := getRecords loc h in
  let after := getRecords loc (snd (deleteIfImpl loc condition h)) in
  fst (deleteIfImpl loc condition h) = Normal tt
  /\ sheets (snd (deleteIfImpl loc condition h)) = sheets h
  /\ after `sublist_of` before
  /\ (forall r, r ∈ after <-> r ∈ before /\ condition r = false)
  /\ before ≡ₚ after ++ List.filter condition before
  /\ ((forall r, r ∈ before -> condition r = false) -> after = before).
Proof.
  intros Hlt before after. subst before after. unfold deleteIfImpl. cbn [fst snd].
  rewrite getRecords_setRecords by done.
  split_and!; [done | done | | | |].
  - apply deleteIfRecords_sublist.
  - apply deleteIfRecords_elem_of.
  - apply deleteIfRecords_partition.
  - apply deleteIfRecords_none.
Qed.

(** ** Column index resolver *)

Section Resolver.
Variable columnType : gmap string TypeName.
Implicit Types (headers : list string) (acc m : gmap string nat).

Let step := fun acc (h : string) (i : nat) =>
  if hasProperty columnType h
  then Normal (<[h := i]> acc)
  else Abrupt (ThrowError (UnknownColumnName h)).

Lemma hasProperty_true h :
  hasProperty columnType h = true
  <-> is_Some (columnType !! h) \/ h ∈ objectPrototypeKeys.
Proof.
  unfold hasProperty. destruct (columnType !! h) as [ty|] eqn:Hh.
  - split; [by intros _; left; eexists | done].
  - rewrite bool_decide_eq_true. split; [by right|].
    by intros [[? [=]]|?].
Qed.

Lemma hasProperty_false h :
  hasProperty columnType h = false
  <-> columnType !! h = None /\ h ∉ objectPrototypeKeys.
Proof.
  unfold hasProperty. destruct (columnType !! h) as [ty|] eqn:Hh.
  - split; [done | by intros [[=] _]].
  - rewrite bool_decide_eq_false. tauto.
Qed.

Lemma hasProperty_declared h :
  is_Some (columnType !! h) -> hasProperty columnType h = true.
Proof. intros ?. apply hasProperty_true. by left. Qed.

Lemma resolve_success_inv headers acc i m :
  reduceFromM step acc i headers = Normal m ->
  (forall h, h ∈ headers -> hasProperty columnType h = true)
  /\ (forall c, is_Some (m !! c) <-> c ∈ headers \/ is_Some (acc !! c)).
Proof.
  revert acc i. induction headers as [|h headers IH]; intros acc i; cbn.
  - intros [= <-]. split; [by intros ? ?%elem_of_nil|].
    intros c. split; [by right | by intros [?%elem_of_nil|?]].
  - unfold step at 1. destruct (hasProperty columnType h) eqn:Hh; [|done].
    intros [Hall Hdom]%IH. split.
    + intros h' [->|?]%elem_of_cons; [done | by apply Hall].
    + intros c. rewrite Hdom, elem_of_cons.
      destruct (decide (c = h)) as [->|Hne].
      * rewrite lookup_insert_eq. split; [by left; left | by right].
      * rewrite lookup_insert_ne by done. tauto.
Qed.

Lemma resolve_failure_inv headers acc i t :
  reduceFromM step acc i headers = Abrupt t ->
  exists h, h ∈ headers /\ hasProperty columnType h = false
            /\ t = ThrowError (UnknownColumnName h).
Proof.
  revert acc i. induction headers as [|h headers IH]; intros acc i; cbn; [done|].
  unfold step at 1. destruct (hasProperty columnType h) eqn:Hh.
  - intros (h' & ? & ? & ?)%IH. exists h'. split_and!; [by right | done | done].
  - intros [= <-]. exists h. split_and!; [by left | done | done].
Qed.

Lemma resolve_total headers acc i :
  (forall h, h ∈ headers -> hasProperty columnType h = true) ->
  exists m, reduceFromM step acc i headers = Normal m.
Proof.
  revert acc i. induction headers as [|h headers IH]; intros acc i Hall; cbn.
  - by eexists.
  - unfold step at 1. rewrite (Hall h) by (by left).
    apply IH. intros h' ?. apply Hall. by right.
Qed.
End Resolver.

(** C6, as the code has it.  The resolver has no missing-column failure.
    The test [columnType[h] !== undefined] holds of a header cell that is a
    declared column, and of one that names a property inherited from
    [Object.prototype].  The resolver succeeds exactly when every header
    cell passes the test, so whenever every header cell is a declared
    column; the columns with a position in the returned map are then
    exactly the header cells: a declared column that no header cell matched
    has no position, and that is not an error.  Its one failure is the
    unknown-column error, and it cites a header cell that the schema does
    not declare. *)
Theorem getColumnIndices_unknown_only (headers : list string)
    (columnType : gmap string TypeName) :
  (forall m, getColumnIndices headers columnType = Normal m ->
     (forall h, h ∈ headers ->
        is_Some (columnType !! h) \/ h ∈ objectPrototypeKeys)
     /\ (forall c, is_Some (m !! c) <-> c ∈ headers))
  /\ (forall t, getColumnIndices headers columnType = Abrupt t ->
        exists h, h ∈ headers /\ columnType !! h = None
                  /\ (h ∉ objectPrototypeKeys)
                  /\ t = ThrowError (UnknownColumnName h))
  /\ ((forall h, h ∈ headers ->
         is_Some (columnType !! h) \/ h ∈ objectPrototypeKeys) ->
        exists m, getColumnIndices headers columnType = Normal m)
  /\ ((forall h, h ∈ headers -> is_Some (columnType !! h)) ->
        exists m, getColumnIndices headers columnType = Normal m).
Proof.
  unfold getColumnIndices. split_and!.
  - intros m [Hall Hdom]%resolve_success_inv. split.
    + intros h ?. by apply hasProperty_true, Hall.
    + intros c. rewrite Hdom, lookup_empty. split; [|by left].
      intros [?|[? ?]]; done.
  - intros t (h & Hin & [Hnone Hproto]%hasProperty_false & ->)%resolve_failure_inv.
    by exists h.
  - intros Hall. apply resolve_total. intros h ?. by apply hasProperty_true, Hall.
  - intros Hall. apply resolve_total. intros h ?. by apply hasProperty_declared, Hall.
Qed.

(** C6, as the claim states it, fails: with header [a] and schema
    [{a: string, b: number}] the resolver succeeds although the declared
    column [b] matched no header cell, and [b] has no position. *)
Lemma getColumnIndices_missing_column_accepted :
  ~ (forall (headers : list string) (columnType : gmap string TypeName),
       (exists c, is_Some (columnType !! c) /\ c ∉ headers) ->
       exists t, getColumnIndices headers columnType = Abrupt t).
Proof.
  intros H.
  destruct (H ["a"] (<["a" := TString]> (<["b" := TNumber]> ∅))) as [t Ht].
  - exists "b". split; [by vm_compute; eexists|].
    intros [?|?%elem_of_nil]%elem_of_cons; done.
  - vm_compute in Ht. discriminate Ht.
Qed.

(** A header cell that names a property every object inherits passes the
    test [columnType[h] !== undefined] although the schema declares no such
    column. *)
Example getColumnIndices_inherited_name :
  getColumnIndices ["toString"] (<["a" := TString]> ∅)
  = Normal (<["toString" := 0%nat]> ∅)
  /\ getColumnIndices ["b"] (<["a" := TString]> ∅)
     = Abrupt (ThrowError (UnknownColumnName "b")).
Proof. split; by vm_compute. Qed.

(** ** Decoding and the column index map *)

Section DecodeIndex.
Implicit Types (cts : list ColumnType) (row : list SheetValue).
Implicit Types (macc : gmap string nat) (acc : SheetRecord).

Lemma getColumnIndices_indexFold (columnType : gmap string TypeName)
    (headers : list string) macc i :
  (forall h, h ∈ headers -> hasProperty columnType h = true) ->
  reduceFromM
    (fun m h index =>
       if hasProperty columnType h
       then Normal (<[h := index]> m)
       else Abrupt (ThrowError (UnknownColumnName h))) macc i headers
  = Normal (indexFold macc i headers).
Proof.
  revert macc i. induction headers as [|h headers IH]; intros macc i Hall; [done|].
  cbn. rewrite (Hall h) by (by left).
  apply IH. intros h' ?. apply Hall. by right.
Qed.
End DecodeIndex.

(** The positional read and the column index map part ways as soon as the
    header order is not the schema order: with schema [A, B] and header
    names [B, A] the map sends [A] to position 1, yet the record decoded
    from the row [b, a] holds under [A] the cell at position 0. *)
Lemma decode_ignores_resolved_positions :
  ~ (forall (cts : list ColumnType) (headers : list string) (m : gmap string nat)
            (row : list SheetValue) (ct : ColumnType),
       getColumnIndices headers (columnTypesObject cts) = Normal m ->
       ct ∈ cts ->
       decodeRow cts row !! name ct = arrayGet row <$> (m !! name ct)).
Proof.
  intros H.
  pose (cts := [createColumnType "A" TString; createColumnType "B" TString]).
  specialize (H cts ["B"; "A"] (<["B" := 0%nat]> (<["A" := 1%nat]> ∅))
                [VStr "b"; VStr "a"] (createColumnType "A" TString)).
  assert (decodeRow cts [VStr "b"; VStr "a"] !! "A" = Some (VStr "b")) as Hd
    by (by vm_compute).
  cbn [name] in H. rewrite Hd in H.
  assert (Some (VStr "b") = Some (VStr "a")) as [=].
  { rewrite H; [by vm_compute | by vm_compute | by left]. }
Qed.

(** C9.  The code departs from the claim on [swappedSheet]: schema [A, B],
    header row [B <string>, A <string>], one body row [b, a].  The
    validator accepts the header row, whose cells name the columns [B] and
    [A]; the column index map of these names sends [A] to position 1 and
    [B] to position 0; the session opens, and the one record it reads holds
    under [A] the row's cell at position 0 and under [B] the cell at
    position 1: each field holds the cell of the other column, not the cell
    at the position the map gives its name. *)
Theorem decode_misreads_swapped_header :
  let config := createQueryConfig 1000 swappedColumnTypes in
  let h0 := {| sheets := [swappedSheet]; variables := [] |} in
  let row := [VStr "b"; VStr "a"] in
  getValues swappedSheet = [[VStr "B <string>"; VStr "A <string>"]; row]
  /\ validateColumnTypes (getValues swappedSheet) swappedColumnTypes = Normal tt
  /\ matchedGroup (exec HEADER_REGEX "B <string>") 1 = Some "B"
  /\ matchedGroup (exec HEADER_REGEX "A <string>") 1 = Some "A"
  /\ (exists m,
        getColumnIndices ["B"; "A"] (columnTypesObject swappedColumnTypes) = Normal m
        /\ m !! "A" = Some 1%nat /\ m !! "B" = Some 0%nat)
  /\ arrayGet row 0 = VStr "b"
  /\ arrayGet row 1 = VStr "a"
  /\ exists q h1 record,
       createSheetQuery config h0 = (Normal q, h1)
       /\ read q h1 = (Normal [record], h1)
       /\ record !! "A" = Some (VStr "b")
       /\ record !! "B" = Some (VStr "a").
Proof.
  cbv zeta. split_and!; try (by vm_compute).
  - eexists. split; [by vm_compute|]. split; by vm_compute.
  - eexists _, _, _. split_and!; [by vm_compute | by vm_compute | by vm_compute | by vm_compute].
Qed.

(** ** Sessions *)

Lemma setValuesFromRow2_variables ref numRows numColumns values h :
  variables (snd (setValuesFromRow2 ref numRows numColumns values h)) = variables h.
Proof. unfold setValuesFromRow2. by case_match. Qed.

Lemma commitImpl_variables loc ref cts h :
  variables (snd (commitImpl loc ref cts h)) = variables h.
Proof.
  unfold commitImpl. destruct (encode cts (getRecords loc h)); [done|].
  apply setValuesFromRow2_variables.
Qed.

Lemma commitImpl_empty loc ref cts h :
  getRecords loc h = [] ->
  commitImpl loc ref cts h = (Abrupt (ThrowError (TypeError "length")), h).
Proof. unfold commitImpl. by intros ->. Qed.

Lemma createSheetQuery_closures config h q h1 :
  createSheetQuery config h = (Normal q, h1) ->
  exists loc ref,
    q = {| read := readImpl loc; set := setImpl loc; append := appendImpl loc;
           deleteIf := deleteIfImpl loc;
           commit := commitImpl loc ref (columnTypes config) |}
    /\ loc = length (variables h)
    /\ (loc < length (variables h1))%nat.
Proof.
  unfold createSheetQuery. intros H.
  destruct (list_find _ (sheets h)) as [[ref sheet]|]; [|done].
  destruct (validateColumnTypes _ _); [|done].
  injection H as <- <-. eexists _, ref. split_and!; [done | done |].
  cbn. rewrite length_app. cbn. lia.
Qed.

(** C10. [commit] leaves the session's working set alone: on every heap,
    [read] after [commit] returns the list of records that [read] before
    [commit] returns, whether [commit] wrote or threw. *)
Theorem commit_preserves_working_set
    (config : SheetQueryConfig) (h h1 : Heap) (q : SheetQuery) :
  createSheetQuery config h = (Normal q, h1) ->
  forall h2, fst (read q (snd (commit q h2))) = fst (read q h2).
Proof.
  intros (loc & ref & -> & _ & _)%createSheetQuery_closures h2. cbn.
  unfold getRecords. by rewrite commitImpl_variables.
Qed.

(** C5 fails on the code: on a sheet that holds the header row alone the
    session opens with an empty working set, and [commit] throws the
    TypeError of [values[0].length]; the runner reports it as a failure and
    nothing is written. *)
Theorem commit_empty_working_set_throws :
  useSheetQuery commitProc [groupQueryConfig] None (worldOf emptyGroupSheet freeLock)
  = (Normal (Err (TypeError "length")),
     {| heap := {| sheets := [emptyGroupSheet]; variables := [[]] |};
        lock := {| busyFor := 0; hasLock := false;
                   calls := [ReleaseLock; WaitLock 5000 true] |} |}).
Proof. by vm_compute. Qed.

(** ** The transaction runner *)

(** Session setup throws [Error] objects only. *)
Lemma validateHeader_throws_Error cts cell t :
  validateHeader cts cell = Abrupt t -> exists e, t = ThrowError e.
Proof. unfold validateHeader. repeat case_match; intros [= <-]; by eexists. Qed.

Lemma validateColumnTypes_throws_Error sheetValues cts t :
  validateColumnTypes sheetValues cts = Abrupt t -> exists e, t = ThrowError e.
Proof.
  destruct sheetValues as [|headers body]; cbn; [intros [= <-]; by eexists|].
  induction headers as [|cell headers IH]; cbn; [done|].
  destruct (validateHeader cts cell) as [[]|t'] eqn:Hcell; [done|].
  intros [= ->]. by eapply validateHeader_throws_Error.
Qed.

Lemma createSheetQuery_throws_Error config h t h1 :
  createSheetQuery config h = (Abrupt t, h1) -> exists e, t = ThrowError e.
Proof.
  unfold createSheetQuery.
  destruct (list_find _ (sheets h)) as [[ref sheet]|];
    [|intros [= <- _]; by eexists].
  destruct (validateColumnTypes _ _) as [[]|t'] eqn:Hv; [done|].
  intros [= <- _]. by eapply validateColumnTypes_throws_Error.
Qed.

Lemma mapM_createSheetQuery_throws_Error configs h t h1 :
  mapM createSheetQuery configs h = (Abrupt t, h1) -> exists e, t = ThrowError e.
Proof.
  revert h. induction configs as [|config configs IH]; intros h; cbn [mapM]; [done|].
  unfold bind at 1. destruct (createSheetQuery config h) as [[q|t'] h'] eqn:Hq.
  - unfold bind at 1.
    destruct (mapM createSheetQuery configs h') as [[qs|t'] h''] eqn:Hqs; [done|].
    intros [= <- <-]. by eapply IH.
  - intros [= <- _]. by eapply createSheetQuery_throws_Error.
Qed.

Lemma waitLock_throws_Error timeout w t w1 :
  waitLock timeout w = (Abrupt t, w1) -> exists e, t = ThrowError e.
Proof. unfold waitLock. case_match; [done|]. intros [= <- _]. by eexists. Qed.

Section Runner.
Context {T : Type}.
Variable proc : list SheetQuery -> SE Heap T.
Variable configs : list SheetQueryConfig.
Variable options : option Options.

Lemma liftHeap_lock {A} (m : SE Heap A) w :
  lock (snd (liftHeap m w)) = lock w.
Proof. unfold liftHeap. by destruct (m (heap w)). Qed.

Lemma waitLock_calls t w :
  exists acquired,
    calls (lock (snd (waitLock t w))) = WaitLock t acquired :: calls (lock w).
Proof. unfold waitLock. case_match; by eexists. Qed.

(** The [catch] clause leaves the state as it is; it returns [Err] unless
    the thrown value has no string conversion. *)
Lemma catchClause_state {S} (error : Thrown) (s : S) :
  snd (@catchClause S T error s) = s.
Proof. by destruct error. Qed.

Lemma catchClause_converts {S} (error : Thrown) (s : S) :
  error <> ThrowUnconvertible ->
  @catchClause S T error s = (Normal (Err (asError error)), s).
Proof. by destruct error. Qed.

(** The [try] block adds one call to the lock's log, the [waitLock]. *)
Lemma tryBlock_calls w :
  exists acquired,
    calls (lock (snd
      ((waitLock (effectiveTimeouts options) ;;
        do queries <- liftHeap (mapM createSheetQuery configs);
        do value <- liftHeap (proc queries);
        ret (Ok (E := Error) value))%se w)))
    = WaitLock (effectiveTimeouts options) acquired :: calls (lock w).
Proof.
  destruct (waitLock_calls (effectiveTimeouts options) w) as [acquired Hw].
  exists acquired. unfold bind at 1.
  destruct (waitLock _ w) as [[[]|t] w1]; cbn [snd] in *; [|done].
  unfold bind at 1.
  pose proof (liftHeap_lock (mapM createSheetQuery configs) w1) as H1.
  destruct (liftHeap (mapM createSheetQuery configs) w1) as [[qs|t] w2];
    cbn [snd] in *; [|congruence].
  unfold bind at 1.
  pose proof (liftHeap_lock (proc qs) w2) as H2.
  destruct (liftHeap (proc qs) w2) as [[v|t] w3]; unfold ret; cbn [snd] in *;
    congruence.
Qed.

Lemma useSheetQuery_unfold w :
  useSheetQuery proc configs options w
  = let '(o1, w1) :=
      (waitLock (effectiveTimeouts options) ;;
       do queries <- liftHeap (mapM createSheetQuery configs);
       do value <- liftHeap (proc queries);
       ret (Ok (E := Error) value))%se w in
    (match o1 with
     | Normal r => Normal r
     | Abrupt t => fst (catchClause (T := T) t w1)
     end,
     snd (releaseLock w1)).
Proof.
  unfold useSheetQuery, tryCatchFinally.
  destruct (bind _ _ w) as [[r|t] w1]; [done|].
  by destruct t.
Qed.
End Runner.

(** C2. Whatever the schemas, the timeout and the procedure, and whether
    lock acquisition, session setup or the procedure return or throw, one
    call of [useSheetQuery] calls [releaseLock] exactly once, after its
    [waitLock], and ends with the lock released. *)
Theorem useSheetQuery_releases_lock_once {T : Type}
    (proc : list SheetQuery -> SE Heap T) (configs : list SheetQueryConfig)
    (options : option Options) (w : World) :
  let w' := snd (useSheetQuery proc configs options w) in
  (exists acquired,
     calls (lock w')
     = ReleaseLock :: WaitLock (effectiveTimeouts options) acquired :: calls (lock w))
  /\ releaseCount (calls (lock w')) = S (releaseCount (calls (lock w)))
  /\ hasLock (lock w') = false.
Proof.
  cbn zeta. rewrite useSheetQuery_unfold.
  destruct (tryBlock_calls proc configs options w) as [acquired Hcalls].
  destruct (bind _ _ w) as [o1 w1]. cbn [snd lock calls hasLock releaseLock] in *.
  rewrite Hcalls. split_and!; [by exists acquired | done | done].
Qed.

Lemma mapM_first_abrupt {S A B : Type} (f : A -> SE S B)
    (pre : list A) (x : A) (post : list A) (s s1 s2 : S) (ys : list B) (t : Thrown) :
  mapM f pre s = (Normal ys, s1) ->
  f x s1 = (Abrupt t, s2) ->
  mapM f (pre ++ x :: post) s = (Abrupt t, s2).
Proof.
  revert s ys. induction pre as [|p pre IH]; intros s ys; cbn [mapM app].
  - intros [= _ <-] Hx. unfold bind. by rewrite Hx.
  - unfold bind at 1. destruct (f p s) as [[y|t'] s'] eqn:Hp; [|done].
    unfold bind at 1. destruct (mapM f pre s') as [[ys'|t'] s''] eqn:Hpre; [|done].
    intros [= _ <-] Hx. unfold bind at 1. rewrite Hp.
    unfold bind at 1. by rewrite (IH s' ys').
Qed.

(** The result of [useSheetQuery], step by step.  When the lock is
    acquired, every session opens and the procedure returns, the call
    returns [Ok] of the procedure's value.  When [waitLock] throws or a
    session fails to open, it returns [Err] of that error, the first one.
    When the procedure throws, it returns [Err] of the [Error] thrown, or of
    an [Error] built from the thrown value when that has a string
    conversion; when it has none, the call throws a TypeError itself. *)
Lemma useSheetQuery_result {T : Type}
    (proc : list SheetQuery -> SE Heap T) (configs : list SheetQueryConfig)
    (options : option Options) (w : World) :
  let result := fst (useSheetQuery proc configs options w) in
  (forall e w1,
     waitLock (effectiveTimeouts options) w = (Abrupt e, w1) ->
     result = Normal (Err (asError e)))
  /\ (forall w1,
        waitLock (effectiveTimeouts options) w = (Normal tt, w1) ->
        (forall pre config post qs h1 e h2,
            configs = pre ++ config :: post ->
            mapM createSheetQuery pre (heap w1) = (Normal qs, h1) ->
            createSheetQuery config h1 = (Abrupt e, h2) ->
            result = Normal (Err (asError e)))
        /\ (forall qs h1,
              mapM createSheetQuery configs (heap w1) = (Normal qs, h1) ->
              (forall e h2, proc qs h1 = (Abrupt e, h2) ->
                            e <> ThrowUnconvertible ->
                            result = Normal (Err (asError e)))
              /\ (forall h2, proc qs h1 = (Abrupt ThrowUnconvertible, h2) ->
                             result = Abrupt (ThrowError
                                        (TypeError "Cannot convert to string")))
              /\ (forall v h2, proc qs h1 = (Normal v, h2) ->
                               result = Normal (Ok v)))).
Proof.
  cbn zeta. rewrite useSheetQuery_unfold. unfold bind, liftHeap. split_and!.
  - intros e w1 Hw. rewrite Hw.
    by apply waitLock_throws_Error in Hw as [err ->].
  - intros w1 Hw. rewrite Hw. cbn beta iota. split.
    + intros pre config post qs h1 e h2 -> Hpre Hconfig.
      rewrite (mapM_first_abrupt _ _ _ post _ _ _ _ _ Hpre Hconfig).
      by apply createSheetQuery_throws_Error in Hconfig as [err ->].
    + intros qs h1 Hqs. rewrite Hqs. cbn [heap]. split_and!.
      * intros e h2 Hproc Hconv. rewrite Hproc. cbn [fst].
        by rewrite catchClause_converts.
      * intros h2 Hproc. by rewrite Hproc.
      * intros v h2 Hproc. by rewrite Hproc.
Qed.

(** C3.  The code departs from the claim when the procedure throws a value
    that has no string conversion.  On the group sheet, with a free lock,
    the default timeout and the procedure [() => { throw Symbol(); }], the
    lock is acquired and the session opens; the procedure throws; the
    [catch] clause, building the message of the [Error] to return, throws a
    TypeError in turn.  The lock is released and the call ends abruptly
    with that TypeError (the promise rejects): no [Err] is returned, and
    the value first thrown is lost. *)
Theorem useSheetQuery_rejects_on_unconvertible_throw :
  waitLock 5000 (worldOf groupSheet freeLock)
  = (Normal tt,
     {| heap := groupHeap;
        lock := {| busyFor := 0; hasLock := true;
                   calls := [WaitLock 5000 true] |} |})
  /\ mapM createSheetQuery [groupQueryConfig] groupHeap
     = (Normal [groupQuery], groupHeapOpened)
  /\ throwSymbol [groupQuery] groupHeapOpened
     = (Abrupt ThrowUnconvertible, groupHeapOpened)
  /\ useSheetQuery throwSymbol [groupQueryConfig] None (worldOf groupSheet freeLock)
     = (Abrupt (ThrowError (TypeError "Cannot convert to string")),
        {| heap := groupHeapOpened;
           lock := {| busyFor := 0; hasLock := false;
                      calls := [ReleaseLock; WaitLock 5000 true] |} |}).
Proof. split_and!; by vm_compute. Qed.

(** C4. When the lock stays busy for longer than the timeout,
    [useSheetQuery] returns the failure of [waitLock] at once: the result
    and the final world are the same for every procedure (none is invoked),
    no session is opened and the spreadsheet is unchanged. *)
Theorem useSheetQuery_lock_timeout {T : Type}
    (proc : list SheetQuery -> SE Heap T) (configs : list SheetQueryConfig)
    (options : option Options) (w : World) :
  effectiveTimeouts options < busyFor (lock w) ->
  fst (useSheetQuery proc configs options w)
  = Normal (Err (LockTimeout (effectiveTimeouts options)))
  /\ heap (snd (useSheetQuery proc configs options w)) = heap w
  /\ (forall proc' : list SheetQuery -> SE Heap T,
        useSheetQuery proc' configs options w = useSheetQuery proc configs options w).
Proof.
  intros Hbusy.
  assert (forall p : list SheetQuery -> SE Heap T,
            useSheetQuery p configs options w
            = (Normal (Err (LockTimeout (effectiveTimeouts options))),
               {| heap := heap w;
                  lock := {| busyFor := busyFor (lock w); hasLock := false;
                             calls := ReleaseLock
                                      :: WaitLock (effectiveTimeouts options) false
                                      :: calls (lock w) |} |})) as Hrun.
  { intros p. rewrite useSheetQuery_unfold. unfold bind at 1, waitLock.
    destruct (Z.leb_spec (busyFor (lock w)) (effectiveTimeouts options)); [lia|].
    done. }
  split_and!.
  - by rewrite Hrun.
  - by rewrite Hrun.
  - intros proc'. by rewrite !Hrun.
Qed.

(** ** The header grammar *)

Section Matcher.
Implicit Types (r : regex) (k : Cont) (s w : list ascii) (c res : Captures).

Lemma starLoop_consumes (m1 : Cont -> Cont) r fuel :
  consumes m1 r ->
  forall k pos s c res,
    starLoop m1 k fuel pos s c = Some res ->
    exists w s', s = w ++ s' /\ matches (Star r) w
                 /\ k (pos + length w)%nat s' c = Some res.
Proof.
  intros Hm1. induction fuel as [|fuel IH]; intros k pos s c res; cbn [starLoop].
  - intros Hk. exists [], s. rewrite Nat.add_0_r.
    split_and!; [done | constructor | done].
  - destruct (m1 _ pos s c) as [res'|] eqn:Hiter.
    + intros [= ->].
      apply Hm1 in Hiter as (w1 & s1 & -> & Hw1 & Hrest).
      destruct (length s1 <? length (w1 ++ s1))%nat; [|done].
      apply IH in Hrest as (w2 & s2 & -> & Hw2 & Hk).
      exists (w1 ++ w2), s2. rewrite length_app, Nat.add_assoc, <- (assoc_L (++)).
      split_and!; [done | by constructor | done].
    + intros Hk. exists [], s. rewrite Nat.add_0_r.
      split_and!; [done | constructor | done].
Qed.

Lemma rmatch_consumes r : captureFree r = true -> consumes (rmatch r) r.
Proof.
  induction r as [|p|r1 IH1 r2 IH2|r1 IH1 r2 IH2|r1 IH1|n r1 IH1| |];
    cbn [captureFree rmatch]; intros Hfree k pos s c res.
  - intros Hk. exists [], s. rewrite Nat.add_0_r.
    split_and!; [done | constructor | done].
  - destruct s as [|a s]; [done|]. destruct (p a) eqn:Hp; [|done].
    intros Hk. exists [a], s. cbn [length]. rewrite Nat.add_1_r.
    split_and!; [done | by constructor | done].
  - apply andb_true_iff in Hfree as [H1 H2].
    intros (w1 & s1 & -> & Hw1 & Hrest)%(IH1 H1).
    apply (IH2 H2) in Hrest as (w2 & s2 & -> & Hw2 & Hk).
    exists (w1 ++ w2), s2. rewrite length_app, Nat.add_assoc, <- (assoc_L (++)).
    split_and!; [done | by constructor | done].
  - apply andb_true_iff in Hfree as [H1 H2].
    destruct (rmatch r1 k pos s c) as [res'|] eqn:Hleft.
    + intros [= ->]. apply (IH1 H1) in Hleft as (w & s' & -> & Hw & Hk).
      exists w, s'. split_and!; [done | by apply matches_alt_l | done].
    + intros (w & s' & -> & Hw & Hk)%(IH2 H2).
      exists w, s'. split_and!; [done | by apply matches_alt_r | done].
  - apply starLoop_consumes. by apply IH1.
  - done.
  - destruct (pos =? 0)%nat; [|done]. intros Hk. exists [], s.
    rewrite Nat.add_0_r. split_and!; [done | constructor | done].
  - destruct s; [|done]. intros Hk. exists [], []. rewrite Nat.add_0_r.
    split_and!; [done | constructor | done].
Qed.

(** A capturing group around a group-free regex records the word it
    consumed. *)
Lemma rmatch_group n r k pos s c res :
  captureFree r = true ->
  rmatch (Group n r) k pos s c = Some res ->
  exists w s', s = w ++ s' /\ matches r w
               /\ k (pos + length w)%nat s' (<[n := w]> c) = Some res.
Proof.
  intros Hfree. cbn [rmatch].
  intros (w & s' & -> & Hw & Hk)%(rmatch_consumes r Hfree).
  exists w, s'. split_and!; [done | done |].
  replace (pos + length w - pos)%nat with (length w) in Hk by lia.
  by rewrite take_app_length in Hk.
Qed.

Lemma matches_star_class p w :
  matches (Star (Class p)) w -> Forall (fun a => p a = true) w.
Proof.
  intros H. remember (Star (Class p)) as r eqn:Hr.
  induction H as [| | | | | |r' w1 w2 H1 _ H2 IH2| | |]; try discriminate Hr.
  - constructor.
  - injection Hr as ->. inversion H1; subst. constructor; [done | by apply IH2].
Qed.

Lemma matches_plus_class p w :
  matches (Plus (Class p)) w -> w <> [] /\ Forall (fun a => p a = true) w.
Proof.
  unfold Plus. inversion 1 as [| |r1 r2 w1 w2 H1 H2| | | | | | |]; subst.
  inversion H1; subst. split; [done|].
  constructor; [done | by apply matches_star_class].
Qed.

Lemma matches_class_eq (a0 : ascii) w :
  matches (Class (fun a => bool_decide (a = a0))) w -> w = [a0].
Proof.
  inversion 1 as [|p a Hp| | | | | | | |]; subst.
  by apply bool_decide_eq_true in Hp as ->.
Qed.

Lemma matches_Lit l w : matches (Lit l) w -> w = l.
Proof.
  revert w. induction l as [|a l IH]; intros w; cbn [Lit].
  - by inversion 1.
  - inversion 1 as [| |r1 r2 w1 w2 H1 H2| | | | | | |]; subst.
    apply matches_class_eq in H1 as ->. by rewrite (IH _ H2).
Qed.

Lemma matches_alt_inv r1 r2 w :
  matches (Alt r1 r2) w -> matches r1 w \/ matches r2 w.
Proof. inversion 1; subst; auto. Qed.

Lemma matches_typeAlternatives w :
  matches typeAlternatives w ->
  string_of_list_ascii w ∈ ["string"; "number"; "boolean"; "Date"].
Proof.
  unfold typeAlternatives.
  intros [H|[H|[H|H]%matches_alt_inv]%matches_alt_inv]%matches_alt_inv;
    apply matches_Lit in H as ->;
    rewrite string_of_list_ascii_of_string; repeat constructor.
Qed.
End Matcher.

Section HeaderRegex.
Implicit Types (r : regex) (k : Cont) (s w : list ascii) (c res : Captures).

Lemma rmatch_Cat r1 r2 k pos s c :
  rmatch (Cat r1 r2) k pos s c = rmatch r1 (rmatch r2 k) pos s c.
Proof. reflexivity. Qed.

Lemma rmatch_Bol_later r k pos s c : rmatch (Cat Bol r) k (S pos) s c = None.
Proof. reflexivity. Qed.

Lemma execFrom_Bol_later r pos s : execFrom (Cat Bol r) (S pos) s = None.
Proof.
  revert pos. induction s as [|a s IH]; intros pos; cbn [execFrom];
    rewrite rmatch_Bol_later; [done | apply IH].
Qed.

Lemma exec_Bol r raw :
  exec (Cat Bol r) raw
  = rmatch r (fun _ _ c => Some c) 0%nat (list_ascii_of_string raw) ∅.
Proof.
  unfold exec. destruct (list_ascii_of_string raw) as [|a s]; cbn [execFrom].
  - rewrite rmatch_Cat. cbn [rmatch Nat.eqb]. by case_match.
  - rewrite rmatch_Cat. cbn [rmatch Nat.eqb]. rewrite execFrom_Bol_later.
    by case_match.
Qed.

(** A match of [HEADER_REGEX] has the shape of an annotated header, its
    groups 1 and 2 holding the name and the type. *)
Lemma HEADER_REGEX_annotated raw c :
  exec HEADER_REGEX raw = Some c ->
  exists nm ty,
    c !! 1%nat = Some nm /\ c !! 2%nat = Some ty
    /\ annotatedHeader (list_ascii_of_string raw) nm ty.
Proof.
  unfold HEADER_REGEX. rewrite exec_Bol.
  generalize (list_ascii_of_string raw). clear raw. intros s H.
  rewrite rmatch_Cat in H.
  apply rmatch_consumes in H as (ws1 & s1 & -> & Hws1 & H); [|done].
  rewrite rmatch_Cat in H.
  apply rmatch_group in H as (nm & s2 & -> & Hnm & H); [|done].
  rewrite rmatch_Cat in H.
  apply rmatch_consumes in H as (ws2 & s3 & -> & Hws2 & H); [|done].
  rewrite rmatch_Cat in H.
  apply rmatch_consumes in H as (lt & s4 & -> & Hlt & H); [|done].
  rewrite rmatch_Cat in H.
  apply rmatch_group in H as (ty & s5 & -> & Hty & H); [|done].
  rewrite rmatch_Cat in H.
  apply rmatch_consumes in H as (gt & s6 & -> & Hgt & H); [|done].
  rewrite rmatch_Cat in H.
  apply rmatch_consumes in H as (ws3 & s7 & -> & Hws3 & H); [|done].
  cbn [rmatch] in H. destruct s7; [|done]. injection H as <-.
  apply matches_class_eq in Hlt as ->. apply matches_class_eq in Hgt as ->.
  apply matches_star_class in Hws1, Hws3.
  apply matches_plus_class in Hnm as [Hnm1 Hnm2], Hws2 as [Hws21 Hws22].
  apply matches_typeAlternatives in Hty.
  exists nm, ty. split_and!.
  - rewrite lookup_insert_ne by done. by rewrite lookup_insert_eq.
  - by rewrite lookup_insert_eq.
  - exists ws1, ws2, ws3. rewrite app_nil_r. cbn [app]. by split_and!.
Qed.

(** A string without ['<'] does not match [HEADER_REGEX]. *)
Lemma HEADER_REGEX_unannotated raw :
  lt_sign ∉ list_ascii_of_string raw -> exec HEADER_REGEX raw = None.
Proof.
  intros Hraw. destruct (exec HEADER_REGEX raw) as [c|] eqn:Hexec; [|done].
  apply HEADER_REGEX_annotated in Hexec
    as (nm & ty & _ & _ & ws1 & ws2 & ws3 & Heq & _).
  exfalso. apply Hraw. rewrite Heq. set_solver.
Qed.
End HeaderRegex.

(** ** Header validation *)

Section Validator.
Variable cts : list ColumnType.

Lemma forEach_Normal {A : Type} (f : A -> Outcome unit) (l : list A) :
  forEach f l = Normal tt <-> Forall (fun x => f x = Normal tt) l.
Proof.
  induction l as [|x l IH]; cbn [forEach]; [by split; [constructor|]|].
  rewrite Forall_cons. destruct (f x) as [[]|t]; [|by split; [|intros []]].
  rewrite IH. tauto.
Qed.

Lemma forEach_first_abrupt {A : Type} (f : A -> Outcome unit)
    (pre : list A) (x : A) (post : list A) (t : Thrown) :
  Forall (fun y => f y = Normal tt) pre ->
  f x = Abrupt t ->
  forEach f (pre ++ x :: post) = Abrupt t.
Proof.
  intros Hpre Hx. induction Hpre as [|y pre Hy _ IH]; cbn [forEach app].
  - by rewrite Hx.
  - by rewrite Hy.
Qed.

Lemma validateHeader_accepted cell :
  validateHeader cts cell = Normal tt ->
  exists raw nm ty ct,
    cell = VStr raw
    /\ annotatedHeader (list_ascii_of_string raw) nm ty
    /\ ct ∈ cts
    /\ name ct = string_of_list_ascii nm
    /\ typeNameString (type ct) = string_of_list_ascii ty.
Proof.
  destruct cell as [|b|n|raw|ms]; try done. cbn [validateHeader].
  destruct (exec HEADER_REGEX raw) as [c|] eqn:Hexec; [|done].
  apply HEADER_REGEX_annotated in Hexec as (nm & ty & H1 & H2 & Hshape).
  cbn [matchedGroup]. rewrite H1, H2. cbn [fmap option_fmap option_map].
  destruct (List.find _ cts) as [ct|] eqn:Hfind; [|done]. intros _.
  apply find_some in Hfind as [Hin Hct%andb_true_iff].
  destruct Hct as [Hty%bool_decide_eq_true Hname%bool_decide_eq_true].
  exists raw, nm, ty, ct. split_and!; [done | done | | done | done].
  by apply list_elem_of_In.
Qed.

Lemma validateHeader_unannotated raw :
  lt_sign ∉ list_ascii_of_string raw ->
  validateHeader cts (VStr raw)
  = Abrupt (ThrowError (HeaderNotProperlyDefined raw)).
Proof.
  intros Hraw. cbn [validateHeader].
  by rewrite (HEADER_REGEX_unannotated raw Hraw).
Qed.

(** A string outside the grammar is rejected as not properly defined,
    whatever the schema. *)
Lemma validateHeader_outside_grammar raw :
  (forall nm ty, ~ annotatedHeader (list_ascii_of_string raw) nm ty) ->
  validateHeader cts (VStr raw)
  = Abrupt (ThrowError (HeaderNotProperlyDefined raw)).
Proof.
  intros Hraw. cbn [validateHeader].
  destruct (exec HEADER_REGEX raw) as [c|] eqn:Hexec; [|done].
  apply HEADER_REGEX_annotated in Hexec as (nm & ty & _ & _ & Hshape).
  by destruct (Hraw nm ty).
Qed.
End Validator.

(** C8, as the code has it.  The validator accepts a header row only when
    every header cell is a string of the form [name <type>] whose name and
    type are those of a schema column.  A header cell without annotation
    (no ['<'] in it) is rejected, whatever its text: when it is the first
    cell the validator rejects, the error is "Header does not properly
    defined" for that cell.  The same error meets every string cell that is
    not of the form [name <type>], annotated or not. *)
Theorem validateColumnTypes_requires_annotation
    (headers : list SheetValue) (body : DataTable) (cts : list ColumnType) :
  (validateColumnTypes (headers :: body) cts = Normal tt ->
   forall cell, cell ∈ headers ->
     exists raw nm ty ct,
       cell = VStr raw
       /\ annotatedHeader (list_ascii_of_string raw) nm ty
       /\ ct ∈ cts
       /\ name ct = string_of_list_ascii nm
       /\ typeNameString (type ct) = string_of_list_ascii ty)
  /\ (forall pre raw post,
        headers = pre ++ VStr raw :: post ->
        Forall (fun cell => validateHeader cts cell = Normal tt) pre ->
        lt_sign ∉ list_ascii_of_string raw ->
        validateColumnTypes (headers :: body) cts
        = Abrupt (ThrowError (HeaderNotProperlyDefined raw)))
  /\ (forall pre raw post,
        headers = pre ++ VStr raw :: post ->
        Forall (fun cell => validateHeader cts cell = Normal tt) pre ->
        (forall nm ty, ~ annotatedHeader (list_ascii_of_string raw) nm ty) ->
        validateColumnTypes (headers :: body) cts
        = Abrupt (ThrowError (HeaderNotProperlyDefined raw))).
Proof.
  cbn [validateColumnTypes]. split_and!.
  - intros Hall%forEach_Normal cell Hcell.
    apply validateHeader_accepted. by eapply Forall_forall in Hall.
  - intros pre raw post -> Hpre Hraw.
    apply forEach_first_abrupt; [done|]. by apply validateHeader_unannotated.
  - intros pre raw post -> Hpre Hraw.
    apply forEach_first_abrupt; [done|]. by apply validateHeader_outside_grammar.
Qed.

(** C8, as the claim states it, fails: the header cell [Name] carries no
    annotation and is the name of a column of the schema, and the validator
    rejects it. *)
Lemma unannotated_header_rejected :
  ~ (forall (cts : list ColumnType) (raw : string) (body : DataTable),
       lt_sign ∉ list_ascii_of_string raw ->
       (exists ct, ct ∈ cts /\ name ct = raw) ->
       validateColumnTypes ([VStr raw] :: body) cts = Normal tt).
Proof.
  intros H. specialize (H GROUP_COLUMN_TYPES "Name" []).
  assert (validateColumnTypes [[VStr "Name"]] GROUP_COLUMN_TYPES
          = Abrupt (ThrowError (HeaderNotProperlyDefined "Name"))) as Hrun
    by (by vm_compute).
  rewrite H in Hrun; [done | |].
  - intros Hin%list_elem_of_In. cbn in Hin. intuition discriminate.
  - exists (createColumnType "Name" TString). split; [|done].
    unfold GROUP_COLUMN_TYPES. set_solver.
Qed.

(** ** The theorems at work on the example of index2.ts *)

Lemma decode_encode_roundtrip_witness :
  Forall (fun record => dom record = list_to_set (columnNames GROUP_COLUMN_TYPES))
         groupRecords
  /\ decode GROUP_COLUMN_TYPES (encode GROUP_COLUMN_TYPES groupRecords) = groupRecords.
Proof.
  assert (Forall (fun record : SheetRecord =>
                    dom record = list_to_set (columnNames GROUP_COLUMN_TYPES))
                 groupRecords) as H
    by (repeat constructor; vm_compute; reflexivity).
  split; [exact H | exact (decode_encode_roundtrip GROUP_COLUMN_TYPES groupRecords H)].
Defined.

Lemma deleteIf_removes_matching_witness :
  (0 < length (variables groupHeapOpened))%nat
  /\ getRecords 0 (snd (deleteIfImpl 0 gradesAboveOne groupHeapOpened))
     `sublist_of` getRecords 0 groupHeapOpened
  /\ getRecords 0 (snd (deleteIfImpl 0 (fun _ => false) groupHeapOpened))
     = getRecords 0 groupHeapOpened.
Proof.
  assert (0 < length (variables groupHeapOpened))%nat as H by (cbn; lia).
  split_and!; [exact H | |].
  - exact (proj1 (proj2 (proj2
             (deleteIf_removes_matching 0 gradesAboveOne groupHeapOpened H)))).
  - apply (proj2 (proj2 (proj2 (proj2 (proj2
             (deleteIf_removes_matching 0 (fun _ => false) groupHeapOpened H)))))).
    intros r _. reflexivity.
Defined.

Lemma getColumnIndices_unknown_only_witness :
  exists m,
    getColumnIndices ["a"] (<["a" := TString]> (<["b" := TNumber]> ∅)) = Normal m
    /\ forall c, is_Some (m !! c) <-> c ∈ ["a"].
Proof.
  destruct (getColumnIndices_unknown_only
              ["a"] (<["a" := TString]> (<["b" := TNumber]> ∅)))
    as (Hok & _ & _ & Htotal).
  destruct Htotal as [m Hm].
  - intros h ->%list_elem_of_singleton. exists TString. vm_compute. reflexivity.
  - exists m. split; [exact Hm | exact (proj2 (Hok m Hm))].
Defined.

Lemma commit_preserves_working_set_witness :
  createSheetQuery groupQueryConfig groupHeap = (Normal groupQuery, groupHeapOpened)
  /\ forall h2, fst (read groupQuery (snd (commit groupQuery h2)))
                = fst (read groupQuery h2).
Proof.
  assert (createSheetQuery groupQueryConfig groupHeap
          = (Normal groupQuery, groupHeapOpened)) as H
    by (vm_compute; reflexivity).
  split; [exact H|].
  exact (commit_preserves_working_set groupQueryConfig groupHeap groupHeapOpened
           groupQuery H).
Defined.

Lemma useSheetQuery_lock_timeout_witness :
  effectiveTimeouts None < busyFor (lock (worldOf groupSheet busyLock))
  /\ fst (useSheetQuery groupProc [groupQueryConfig] None (worldOf groupSheet busyLock))
     = Normal (Err (LockTimeout (effectiveTimeouts None)))
  /\ heap (snd (useSheetQuery groupProc [groupQueryConfig] None
                  (worldOf groupSheet busyLock)))
     = heap (worldOf groupSheet busyLock).
Proof.
  assert (effectiveTimeouts None < busyFor (lock (worldOf groupSheet busyLock))) as H
    by (vm_compute; reflexivity).
  split; [exact H|].
  destruct (useSheetQuery_lock_timeout groupProc [groupQueryConfig] None
              (worldOf groupSheet busyLock) H) as (Hres & Hheap & _).
  split; [exact Hres | exact Hheap].
Defined.

Lemma validateColumnTypes_requires_annotation_witness :
  validateColumnTypes [groupHeader] GROUP_COLUMN_TYPES = Normal tt
  /\ (forall cell, cell ∈ groupHeader ->
        exists raw nm ty ct,
          cell = VStr raw
          /\ annotatedHeader (list_ascii_of_string raw) nm ty
          /\ ct ∈ GROUP_COLUMN_TYPES
          /\ name ct = string_of_list_ascii nm
          /\ typeNameString (type ct) = string_of_list_ascii ty)
  /\ validateColumnTypes [[VStr "Group ID <string>"; VStr "Name"]] GROUP_COLUMN_TYPES
     = Abrupt (ThrowError (HeaderNotProperlyDefined "Name"))
  /\ validateColumnTypes [[VStr "Group ID <string>"; VStr "Name <string"]]
                         GROUP_COLUMN_TYPES
     = Abrupt (ThrowError (HeaderNotProperlyDefined "Name <string")).
Proof.
  assert (validateColumnTypes [groupHeader] GROUP_COLUMN_TYPES = Normal tt) as H
    by (vm_compute; reflexivity).
  split_and!; [exact H | | |].
  - exact (proj1 (validateColumnTypes_requires_annotation
                    groupHeader [] GROUP_COLUMN_TYPES) H).
  - apply (proj1 (proj2 (validateColumnTypes_requires_annotation
                    [VStr "Group ID <string>"; VStr "Name"] [] GROUP_COLUMN_TYPES))
             [VStr "Group ID <string>"] "Name" []).
    + reflexivity.
    + constructor; [vm_compute; reflexivity | constructor].
    + intros Hin%list_elem_of_In. cbn in Hin. intuition discriminate.
  - apply (proj2 (proj2 (validateColumnTypes_requires_annotation
                    [VStr "Group ID <string>"; VStr "Name <string"] []
                    GROUP_COLUMN_TYPES))
             [VStr "Group ID <string>"] "Name <string" []).
    + reflexivity.
    + constructor; [vm_compute; reflexivity | constructor].
    + intros nm ty (ws1 & ws2 & ws3 & Heq & _).
      assert (gt_sign ∈ list_ascii_of_string "Name <string") as Hin.
      { rewrite Heq, !elem_of_app, elem_of_cons, elem_of_app, elem_of_cons. tauto. }
      apply list_elem_of_In in Hin. cbn in Hin. intuition discriminate.
Defined.

(** * More of the code *)

(** ** Session operations *)

Section SessionLaws.
Implicit Types (h : Heap) (records : list SheetRecord).

Lemma getRecords_setRecords_ne loc loc' records h :
  loc <> loc' -> getRecords loc' (setRecords loc records h) = getRecords loc' h.
Proof.
  intros Hne. unfold getRecords, setRecords. cbn.
  by rewrite list_lookup_insert_ne.
Qed.

Lemma setRecords_setRecords loc records records' h :
  setRecords loc records' (setRecords loc records h) = setRecords loc records' h.
Proof.
  unfold setRecords. cbn. f_equal.
  destruct (decide (loc < length (variables h))%nat).
  - by rewrite list_insert_insert_eq.
  - by rewrite !list_insert_ge by (rewrite ?length_insert; lia).
Qed.

Lemma deleteIfRecords_app condition records records' :
  deleteIfRecords condition (records ++ records')
  = deleteIfRecords condition records ++ deleteIfRecords condition records'.
Proof. unfold deleteIfRecords. apply List.filter_app. Qed.

Lemma deleteIfRecords_twice c1 c2 records :
  deleteIfRecords c2 (deleteIfRecords c1 records)
  = deleteIfRecords (fun r => c1 r || c2 r) records.
Proof.
  unfold deleteIfRecords. induction records as [|r records IH]; cbn; [done|].
  destruct (c1 r); cbn; [done|]. destruct (c2 r); cbn; [done|]. by f_equal.
Qed.
End SessionLaws.

(** X1. On a session whose variable is allocated, [read] after
    [set(records)] returns [records], whatever the working set was, and
    [read] after [append(records)] returns the previous working set followed
    by [records]; neither touches the sheets. *)
Theorem set_append_then_read
    (config : SheetQueryConfig) (h h1 h2 : Heap) (q : SheetQuery)
    (before records : list SheetRecord) :
  createSheetQuery config h = (Normal q, h1) ->
  (length (variables h1) <= length (variables h2))%nat ->
  fst (read q h2) = Normal before ->
  fst (read q (snd (set q records h2))) = Normal records
  /\ fst (read q (snd (append q records h2))) = Normal (before ++ records)
  /\ sheets (snd (set q records h2)) = sheets h2
  /\ sheets (snd (append q records h2)) = sheets h2.
Proof.
  intros (loc & ref & -> & _ & Hloc)%createSheetQuery_closures Hle. cbn.
  intros [= <-]. rewrite !getRecords_setRecords by lia. done.
Qed.

(** X2. Deletions compose: [deleteIf(c1)] followed by [deleteIf(c2)] leaves
    the heap that one [deleteIf] of "[c1] or [c2]" leaves, and [append]
    followed by [deleteIf(c)] leaves the heap of [deleteIf(c)] followed by
    the [append] of the records that [c] does not match. *)
Theorem deleteIf_composes (loc : nat) (c1 c2 : SheetRecord -> bool)
    (records : list SheetRecord) (h : Heap) :
  (loc < length (variables h))%nat ->
  snd (deleteIfImpl loc c2 (snd (deleteIfImpl loc c1 h)))
  = snd (deleteIfImpl loc (fun r => c1 r || c2 r) h)
  /\ snd (deleteIfImpl loc c1 (snd (appendImpl loc records h)))
     = snd (appendImpl loc (deleteIfRecords c1 records) (snd (deleteIfImpl loc c1 h))).
Proof.
  intros Hlt. unfold deleteIfImpl, appendImpl. cbn [snd].
  rewrite !getRecords_setRecords by done.
  rewrite !setRecords_setRecords, deleteIfRecords_twice, deleteIfRecords_app.
  done.
Qed.

Section OpenedSessions.
Implicit Types (h : Heap) (configs : list SheetQueryConfig) (qs : list SheetQuery).

(** The session that [createSheetQuery] builds over variable [loc] and
    sheet [ref]. *)
Lemma createSheetQuery_inv config h q h1 :
  createSheetQuery config h = (Normal q, h1) ->
  exists ref sheet,
    list_find (fun s => getSheetId s = id config) (sheets h) = Some (ref, sheet)
    /\ validateColumnTypes (getValues sheet) (columnTypes config) = Normal tt
    /\ q = {| read := readImpl (length (variables h));
              set := setImpl (length (variables h));
              append := appendImpl (length (variables h));
              deleteIf := deleteIfImpl (length (variables h));
              commit := commitImpl (length (variables h)) ref (columnTypes config) |}
    /\ h1 = {| sheets := sheets h;
               variables := variables h
                            ++ [decode (columnTypes config) (drop 1 (getValues sheet))] |}.
Proof.
  unfold createSheetQuery. intros H.
  destruct (list_find _ (sheets h)) as [[ref sheet]|]; [|done].
  destruct (validateColumnTypes _ _) as [[]|] eqn:Hv; [|done].
  injection H as <- <-. by exists ref, sheet.
Qed.

Lemma createSheetQuery_abrupt_heap config h t h1 :
  createSheetQuery config h = (Abrupt t, h1) -> h1 = h.
Proof.
  unfold createSheetQuery. intros H.
  destruct (list_find _ (sheets h)) as [[ref sheet]|]; [|by injection H].
  destruct (validateColumnTypes _ _); [done | by injection H].
Qed.


Lemma mapM_createSheetQuery_sheets configs h o h1 :
  mapM createSheetQuery configs h = (o, h1) -> sheets h1 = sheets h.
Proof.
  revert h o h1. induction configs as [|config configs IH]; intros h o h1; cbn [mapM].
  - by intros [= _ <-].
  - unfold bind at 1.
    destruct (createSheetQuery config h) as [[q|t] h'] eqn:Hq.
    + apply createSheetQuery_inv in Hq as (ref & sheet & _ & _ & _ & ->).
      unfold bind at 1.
      destruct (mapM createSheetQuery configs _) as [[qs|t] h''] eqn:Hqs;
        apply IH in Hqs; by intros [= _ <-].
    + apply createSheetQuery_abrupt_heap in Hq as ->. by intros [= _ <-].
Qed.

Lemma mapM_createSheetQuery_inv configs h qs h1 :
  mapM createSheetQuery configs h = (Normal qs, h1) ->
  length qs = length configs
  /\ length (variables h1) = (length (variables h) + length configs)%nat
  /\ forall i q, qs !! i = Some q ->
       exists config ref,
         configs !! i = Some config
         /\ q = {| read := readImpl (length (variables h) + i);
                   set := setImpl (length (variables h) + i);
                   append := appendImpl (length (variables h) + i);
                   deleteIf := deleteIfImpl (length (variables h) + i);
                   commit := commitImpl (length (variables h) + i) ref
                                        (columnTypes config) |}.
Proof.
  revert h qs h1. induction configs as [|config configs IH]; intros h qs h1; cbn [mapM].
  - intros [= <- <-]. split_and!; [done | cbn; lia | by intros ? ? ?].
  - unfold bind at 1.
    destruct (createSheetQuery config h) as [[q|t] h'] eqn:Hq; [|done].
    apply createSheetQuery_inv in Hq as (ref & sheet & _ & _ & -> & ->).
    unfold bind at 1.
    destruct (mapM createSheetQuery configs _) as [[qs'|t] h''] eqn:Hqs; [|done].
    apply IH in Hqs as (Hlen & Hvars & Hqs). cbn [variables] in Hvars, Hqs.
    rewrite length_app in Hvars, Hqs. cbn [length] in Hvars, Hqs.
    intros [= <- <-]. split_and!; [cbn; lia | cbn; lia |].
    intros [|i] q'; cbn.
    + intros [= <-]. exists config, ref. by rewrite Nat.add_0_r.
    + intros (config' & ref' & Hc & ->)%Hqs. exists config', ref'.
      split; [done|]. by replace (length (variables h) + 1 + i)%nat
                         with (length (variables h) + S i)%nat by lia.
Qed.
End OpenedSessions.

(** X3. The sessions of one transaction have working sets of their own,
    also when they are opened on the same sheet: [set], [append], [deleteIf]
    and [commit] on one session never change what [read] returns on
    another. *)
Theorem sessions_are_isolated
    (configs : list SheetQueryConfig) (h h1 : Heap) (qs : list SheetQuery)
    (i j : nat) (qi qj : SheetQuery) :
  mapM createSheetQuery configs h = (Normal qs, h1) ->
  i <> j -> qs !! i = Some qi -> qs !! j = Some qj ->
  forall (h2 : Heap) (records : list SheetRecord) (condition : SheetRecord -> bool),
    fst (read qj (snd (set qi records h2))) = fst (read qj h2)
    /\ fst (read qj (snd (append qi records h2))) = fst (read qj h2)
    /\ fst (read qj (snd (deleteIf qi condition h2))) = fst (read qj h2)
    /\ fst (read qj (snd (commit qi h2))) = fst (read qj h2).
Proof.
  intros (_ & _ & Hqs)%mapM_createSheetQuery_inv Hne Hi Hj h2 records condition.
  apply Hqs in Hi as (ci & refi & _ & ->). apply Hqs in Hj as (cj & refj & _ & ->).
  cbn. rewrite !getRecords_setRecords_ne by lia.
  split_and!; [done | done | done |].
  unfold getRecords. by rewrite commitImpl_variables.
Qed.


(** ** The codec, row by row *)

Section RowCodec.
Implicit Types (cts : list ColumnType) (row : list SheetValue).
Implicit Types (acc : SheetRecord) (k : string).

Lemma decode_fold_other row cts acc i k :
  k ∉ columnNames cts ->
  reduceFrom (fun acc ct index => <[name ct := arrayGet row index]> acc) acc i cts !! k
  = acc !! k.
Proof.
  revert acc i. induction cts as [|ct cts IH]; intros acc i Hk; [done|].
  cbn. rewrite IH.
  - apply lookup_insert_ne. intros Heq. apply Hk. rewrite <- Heq. by left.
  - intros ?. apply Hk. by right.
Qed.

Lemma decode_fold_position row cts acc i j ct :
  cts !! j = Some ct ->
  (forall j' ct', (j < j')%nat -> cts !! j' = Some ct' -> name ct' <> name ct) ->
  reduceFrom (fun acc ct index => <[name ct := arrayGet row index]> acc) acc i cts
    !! name ct
  = Some (arrayGet row (i + j)).
Proof.
  revert acc i j. induction cts as [|c cts IH]; intros acc i j; [done|].
  destruct j as [|j]; cbn.
  - intros [= ->] Hlast. rewrite decode_fold_other.
    + by rewrite lookup_insert_eq, Nat.add_0_r.
    + intros (ct' & Heq & [j' Hj']%list_elem_of_lookup)%list_elem_of_fmap.
      by apply (Hlast (S j') ct'); [lia | |].
  - intros Hj Hlast. rewrite (IH _ (S i) j); [f_equal; f_equal; lia | done |].
    intros j' ct' Hlt Hj'. apply (Hlast (S j') ct'); [lia | done].
Qed.

Lemma decode_fold_dom row cts acc i :
  dom (reduceFrom (fun acc ct index => <[name ct := arrayGet row index]> acc)
                  acc i cts)
  = list_to_set (columnNames cts) ∪ dom acc.
Proof.
  revert acc i. induction cts as [|ct cts IH]; intros acc i; cbn.
  - by rewrite (left_id_L ∅ (∪)).
  - rewrite IH, dom_insert_L. apply set_eq. intros x.
    rewrite !elem_of_union, elem_of_singleton. tauto.
Qed.

Lemma NoDup_columnNames_last cts j ct :
  NoDup (columnNames cts) -> cts !! j = Some ct ->
  forall j' ct', (j < j')%nat -> cts !! j' = Some ct' -> name ct' <> name ct.
Proof.
  intros Hnd Hj j' ct' Hlt Hj' Heq.
  assert (j = j'); [|lia].
  eapply NoDup_lookup; [done | |]; unfold columnNames.
  - by rewrite list_lookup_fmap, Hj.
  - by rewrite list_lookup_fmap, Hj', <- Heq.
Qed.
Lemma encode_decode_same_width cts values :
  NoDup (columnNames cts) ->
  Forall (fun row => length row = length cts) values ->
  encode cts (decode cts values) = values.
Proof.
  intros Hnd Hwidth. unfold encode, decode.
  rewrite <- list_fmap_compose. rewrite <- (list_fmap_id values) at 2.
  apply Forall_fmap_ext. eapply Forall_impl; [exact Hwidth|].
  intros row Hlen. cbn. apply list_eq. intros j. unfold encodeRecord.
  rewrite list_lookup_fmap.
  destruct (cts !! j) as [ct|] eqn:Hj; cbn.
  - unfold recordGet, decodeRow, reduce.
    rewrite (decode_fold_position row cts ∅ 0 j ct Hj)
      by (by eapply NoDup_columnNames_last).
    cbn. unfold arrayGet.
    destruct (lookup_lt_is_Some_2 row j) as [v Hv].
    { rewrite Hlen. by eapply lookup_lt_Some. }
    by rewrite Hv.
  - symmetry. apply lookup_ge_None_2. rewrite Hlen. by apply lookup_ge_None_1.
Qed.
End RowCodec.

(** X5. [decode] gives one record per body row, and the keys of every
    decoded record are exactly the schema's column names, whatever the width
    of the row.  Under the name of a column that no later column repeats, the
    record holds the row's cell at the column's position in the schema,
    which is [undefined] when the row is too short. *)
Theorem decode_shape (cts : list ColumnType) (values : DataTable) :
  length (decode cts values) = length values
  /\ Forall (fun record => dom record = list_to_set (columnNames cts))
            (decode cts values)
  /\ forall i row j ct,
       values !! i = Some row ->
       cts !! j = Some ct ->
       (forall j' ct', (j < j')%nat -> cts !! j' = Some ct' -> name ct' <> name ct) ->
       exists record,
         decode cts values !! i = Some record
         /\ record !! name ct = Some (arrayGet row j)
         /\ ((length row <= j)%nat -> record !! name ct = Some VUndefined).
Proof.
  unfold decode. split_and!.
  - apply length_map.
  - apply Forall_fmap, Forall_forall. intros row _. cbn.
    unfold decodeRow, reduce. rewrite decode_fold_dom, dom_empty_L.
    by rewrite (right_id_L ∅ (∪)).
  - intros i row j ct Hrow Hj Hlast. exists (decodeRow cts row).
    assert (decodeRow cts row !! name ct = Some (arrayGet row j)) as Hget.
    { unfold decodeRow, reduce. by rewrite (decode_fold_position row cts ∅ 0 j). }
    split_and!; [by rewrite list_lookup_fmap, Hrow | done |].
    intros Hshort. rewrite Hget. unfold arrayGet.
    by rewrite lookup_ge_None_2.
Qed.

(** X6. Encoding always gives rows of the schema's width.  When the
    schema's column names are distinct, encoding the records decoded from
    rows of the schema's width gives the rows back. *)
Theorem encode_decode_rows (cts : list ColumnType) (values : DataTable) :
  (forall records, Forall (fun row => length row = length cts) (encode cts records))
  /\ (NoDup (columnNames cts) ->
      Forall (fun row => length row = length cts) values ->
      encode cts (decode cts values) = values).
Proof.
  split.
  - intros records. unfold encode. apply Forall_fmap, Forall_forall.
    intros record _. cbn. unfold encodeRecord. apply length_map.
  - apply encode_decode_same_width.
Qed.

(** ** What [commit] writes *)

Section Writes.
Implicit Types (grid old new rows : DataTable) (row : list SheetValue).

Lemma rectangular_length grid : length (rectangular grid) = length grid.
Proof. unfold rectangular. apply length_map. Qed.

Lemma rectangular_lookup grid i row :
  grid !! i = Some row ->
  exists k, rectangular grid !! i = Some (row ++ replicate k (VStr "")).
Proof.
  intros Hrow. unfold rectangular. rewrite list_lookup_fmap, Hrow. by eexists.
Qed.

Lemma overlayRows_length old new :
  length (overlayRows old new) = Nat.max (length old) (length new).
Proof.
  revert old. induction new as [|r new IH]; intros old; cbn.
  - lia.
  - destruct old as [|o old]; cbn; rewrite IH; cbn; lia.
Qed.

Lemma overlayRows_lookup_new old new i r :
  new !! i = Some r ->
  exists ext, overlayRows old new !! i = Some (r ++ ext).
Proof.
  revert old i. induction new as [|r' new IH]; intros old i; [done|].
  destruct i as [|i]; cbn.
  - intros [= ->]. destruct old as [|o old]; cbn.
    + exists []. by rewrite app_nil_r.
    + by eexists.
  - intros Hr. destruct old as [|o old]; cbn; by apply IH.
Qed.

Lemma overlayRows_lookup_old old new i :
  (length new <= i)%nat -> overlayRows old new !! i = old !! i.
Proof.
  revert old i. induction new as [|r new IH]; intros old i; cbn; [done|].
  intros Hi. destruct i as [|i]; [lia|].
  destruct old as [|o old]; cbn.
  - rewrite IH by lia. done.
  - apply IH. lia.
Qed.

(** The grid after a write from row 2 on: the header row and the rows below
    the block keep their cells, the rows of the block start with the cells
    written; rows may have gained blank cells at their end. *)
Lemma writeRows_from_row2 grid rows :
  let grid' := writeRows grid 1 rows in
  length grid' = Nat.max (Nat.max (length grid) 1) (S (length rows))
  /\ (exists k, grid' !! 0%nat
                = Some (default [] (grid !! 0%nat) ++ replicate k (VStr "")))
  /\ (forall i r, rows !! i = Some r ->
        exists ext, grid' !! S i = Some (r ++ ext))
  /\ (forall i row, (S (length rows) <= i)%nat -> grid !! i = Some row ->
        exists k, grid' !! i = Some (row ++ replicate k (VStr ""))).
Proof.
  cbn zeta. unfold writeRows.
  set (padded := grid ++ replicate (1 - length grid) []).
  assert (exists body, padded = default [] (grid !! 0%nat) :: body
                       /\ length body = (Nat.max (length grid) 1 - 1)%nat
                       /\ forall i, body !! i = grid !! S i)
    as (body & -> & Hbody & Hlookup).
  { subst padded. destruct grid as [|hd body]; cbn.
    - exists []. by split_and!.
    - exists body. rewrite app_nil_r. split_and!; [done | lia | done]. }
  cbn [take drop app]. rewrite take_0, drop_0. cbn [app]. split_and!.
  - rewrite rectangular_length. cbn. rewrite overlayRows_length. lia.
  - by apply rectangular_lookup.
  - intros i r Hr.
    destruct (overlayRows_lookup_new body rows i r Hr) as [ext Hext].
    destruct (rectangular_lookup
                (default [] (grid !! 0%nat) :: overlayRows body rows) (S i) (r ++ ext))
      as [k Hk]; [done|].
    exists (ext ++ replicate k (VStr "")). by rewrite Hk, <- (assoc_L (++)).
  - intros i row Hi Hrow. destruct i as [|i]; [lia|].
    apply rectangular_lookup. cbn.
    rewrite overlayRows_lookup_old by lia. by rewrite Hlookup.
Qed.

Lemma decodeRow_app cts row ext :
  (length cts <= length row)%nat ->
  decodeRow cts (row ++ ext) = decodeRow cts row.
Proof.
  intros Hlen. unfold decodeRow, reduce.
  cut (forall l (acc : SheetRecord) i,
         (i + length l <= length row)%nat ->
         reduceFrom (fun acc ct index => <[name ct := arrayGet (row ++ ext) index]> acc)
                    acc i l
         = reduceFrom (fun acc ct index => <[name ct := arrayGet row index]> acc)
                      acc i l).
  { intros H. apply H. cbn. lia. }
  clear Hlen. induction l as [|ct l IH]; intros acc i Hi; [done|].
  cbn in *. rewrite IH by lia. do 2 f_equal.
  unfold arrayGet. by rewrite lookup_app_l by lia.
Qed.
End Writes.

(** X7. [commit] changes nothing but the grid of its own sheet: the
    working sets, the number of sheets, their ids and every other sheet's
    grid are as before, and when [commit] throws the heap is unchanged. *)
Theorem commit_frame (loc ref : nat) (cts : list ColumnType) (h : Heap) :
  let h' := snd (commitImpl loc ref cts h) in
  variables h' = variables h
  /\ map getSheetId (sheets h') = map getSheetId (sheets h)
  /\ (forall r, r <> ref -> sheets h' !! r = sheets h !! r)
  /\ (forall t, fst (commitImpl loc ref cts h) = Abrupt t -> h' = h).
Proof.
  cbn zeta. unfold commitImpl.
  destruct (encode cts (getRecords loc h)) as [|row0 values]; [done|].
  unfold setValuesFromRow2. case_match; [done|]. cbn.
  split_and!; [done | | | done].
  - apply list_eq. intros r. rewrite !list_lookup_fmap.
    destruct (decide (r = ref)) as [->|Hne].
    + rewrite list_lookup_alter_eq. by destruct (sheets h !! ref).
    + by rewrite list_lookup_alter_ne.
  - intros r Hne. by rewrite list_lookup_alter_ne.
Qed.

(** X8. A [commit] of a non-empty working set under a non-empty schema
    succeeds and writes one row per record from row 2 on: row [i + 2] then
    starts with the encoding of record [i], the header row and the rows
    below the block keep their cells (a shorter working set leaves the old
    rows under it in place), and the number of rows never shrinks.  When
    the keys of the records are the schema's column names, decoding the
    rows written gives the working set back. *)
Theorem commit_writes_working_set
    (loc ref : nat) (cts : list ColumnType) (h : Heap) (sheet : Sheet) :
  sheets h !! ref = Some sheet ->
  getRecords loc h <> [] ->
  cts <> [] ->
  exists sheet',
    commitImpl loc ref cts h
    = (Normal tt, {| sheets := <[ref := sheet']> (sheets h);
                     variables := variables h |})
    /\ getSheetId sheet' = getSheetId sheet
    /\ length (getValues sheet')
       = Nat.max (Nat.max (length (getValues sheet)) 1) (S (length (getRecords loc h)))
    /\ (exists k, getValues sheet' !! 0%nat
                  = Some (default [] (getValues sheet !! 0%nat)
                          ++ replicate k (VStr "")))
    /\ (forall i record, getRecords loc h !! i = Some record ->
          exists ext, getValues sheet' !! S i = Some (encodeRecord cts record ++ ext))
    /\ (forall i row, (S (length (getRecords loc h)) <= i)%nat ->
          getValues sheet !! i = Some row ->
          exists k, getValues sheet' !! i = Some (row ++ replicate k (VStr "")))
    /\ (Forall (fun record => dom record = list_to_set (columnNames cts))
               (getRecords loc h) ->
        decode cts (take (length (getRecords loc h)) (drop 1 (getValues sheet')))
        = getRecords loc h).
Proof.
  intros Href Hrecords Hcts.
  set (records := getRecords loc h) in *.
  set (grid' := writeRows (getValues sheet) 1 (encode cts records)).
  exists {| getSheetId := getSheetId sheet; getValues := grid' |}.
  destruct (writeRows_from_row2 (getValues sheet) (encode cts records))
    as (Hlen & Hheader & Hblock & Hbelow).
  fold grid' in Hlen, Hheader, Hblock, Hbelow.
  assert (length (encode cts records) = length records) as Hn
    by (unfold encode; apply length_map).
  assert (forall i record, records !! i = Some record ->
            exists ext, grid' !! S i = Some (encodeRecord cts record ++ ext)) as Hrows.
  { intros i record Hi. apply Hblock. unfold encode. by rewrite list_lookup_fmap, Hi. }
  split_and!.
  - unfold commitImpl. fold records.
    destruct records as [|record records'] eqn:Hrs; [done|].
    cbn [encode map]. unfold setValuesFromRow2.
    assert (length (encodeRecord cts record) = length cts) as ->
      by (unfold encodeRecord; apply length_map).
    destruct cts as [|ct cts']; [done|]. cbn [length Nat.ltb Nat.leb orb].
    do 2 f_equal. apply list_eq. intros r.
    destruct (decide (r = ref)) as [->|Hne].
    + rewrite list_lookup_alter_eq, Href.
      by rewrite list_lookup_insert_eq by (by eapply lookup_lt_Some).
    + by rewrite list_lookup_alter_ne, list_lookup_insert_ne.
  - done.
  - cbn. by rewrite Hlen, Hn.
  - done.
  - done.
  - intros i row Hi Hrow. apply Hbelow; [by rewrite Hn | done].
  - intros Hdom. cbn [getValues]. apply list_eq. intros i. unfold decode.
    rewrite list_lookup_fmap.
    destruct (records !! i) as [record|] eqn:Hi.
    + destruct (Hrows i record Hi) as [ext Hext].
      rewrite lookup_take_lt by (by eapply lookup_lt_Some).
      rewrite lookup_drop. cbn [Nat.add]. rewrite Hext. cbn. f_equal.
      rewrite decodeRow_app by (unfold encodeRecord; by rewrite length_map).
      apply decodeRow_encodeRecord.
      eapply Forall_forall in Hdom; [done|]. by eapply list_elem_of_lookup_2.
    + rewrite lookup_take_ge; [done|]. by apply lookup_ge_None_1.
Qed.

(** ** More on header validation *)

Section ValidatorClosure.
Implicit Types (cts : list ColumnType) (cell : SheetValue).

Lemma find_Some_elem_of {A : Type} (f : A -> bool) (l : list A) (x : A) :
  x ∈ l -> f x = true -> exists y, List.find f l = Some y.
Proof.
  intros Hin Hf. destruct (List.find f l) as [y|] eqn:Hfind; [by eexists|].
  apply list_elem_of_In in Hin. by rewrite (find_none _ _ Hfind x Hin) in Hf.
Qed.

Lemma validateHeader_schema_mono cts cts' cell :
  (forall ct, ct ∈ cts -> ct ∈ cts') ->
  validateHeader cts cell = Normal tt -> validateHeader cts' cell = Normal tt.
Proof.
  intros Hsub. destruct cell as [|b|n|raw|ms]; try done. cbn [validateHeader].
  destruct (matchedGroup _ 1) as [header|]; [|done].
  destruct (matchedGroup _ 2) as [derivedTypeName|]; [|done].
  destruct (List.find _ cts) as [ct|] eqn:Hfind; [|done]. intros _.
  apply find_some in Hfind as [Hin%list_elem_of_In Hct].
  destruct (find_Some_elem_of
              (fun t => bool_decide (typeNameString (type t) = derivedTypeName)
                        && bool_decide (name t = header))
              cts' ct (Hsub ct Hin) Hct) as [y ->].
  done.
Qed.
End ValidatorClosure.

(** X9. Whether a header row is accepted depends only on which cells occur
    in it: if a header row is accepted, so is every row made of cells of it
    (in any order, with repetitions or omissions, the empty row included),
    over any body rows and under any schema that keeps the columns.  The
    validator neither looks at the body rows nor asks for every declared
    column to be present. *)
Theorem validateColumnTypes_cells_only
    (headers headers' : list SheetValue) (body body' : DataTable)
    (cts cts' : list ColumnType) :
  validateColumnTypes (headers :: body) cts = Normal tt ->
  (forall cell, cell ∈ headers' -> cell ∈ headers) ->
  (forall ct, ct ∈ cts -> ct ∈ cts') ->
  validateColumnTypes (headers' :: body') cts' = Normal tt.
Proof.
  cbn [validateColumnTypes]. rewrite !forEach_Normal, !Forall_forall.
  intros Hall Hcells Hcts cell Hcell.
  eapply validateHeader_schema_mono; [done|]. by apply Hall, Hcells.
Qed.

(** ** More on the column index resolver *)

Section ResolverPositions.
Implicit Types (headers : list string) (acc : gmap string nat).

Lemma indexFold_lookup headers acc i0 h i :
  indexFold acc i0 headers !! h = Some i ->
  (exists j, i = (i0 + j)%nat /\ headers !! j = Some h
             /\ forall j', (j < j')%nat -> headers !! j' <> Some h)
  \/ (acc !! h = Some i /\ h ∉ headers).
Proof.
  unfold indexFold. revert acc i0. induction headers as [|h' headers IH];
    intros acc i0; cbn.
  - intros Hacc. right. split; [done | by intros ?%elem_of_nil].
  - intros [(j & -> & Hj & Hlast)|[Hacc Hnin]]%IH.
    + left. exists (S j). split_and!; [lia | done |].
      intros [|j'] Hlt; [lia|]. cbn. apply Hlast. lia.
    + destruct (decide (h' = h)) as [->|Hne].
      * rewrite lookup_insert_eq in Hacc. injection Hacc as <-.
        left. exists 0%nat. split_and!; [lia | done |].
        intros [|j'] Hlt; [lia|]. cbn. intros Hj'. apply Hnin.
        by eapply list_elem_of_lookup_2.
      * rewrite lookup_insert_ne in Hacc by done. right. split; [done|].
        by intros [?|?]%elem_of_cons.
Qed.

Lemma getColumnIndices_is_indexFold headers (columnType : gmap string TypeName) m :
  getColumnIndices headers columnType = Normal m -> m = indexFold ∅ 0 headers.
Proof.
  intros Hm. pose proof Hm as [Hall _]%resolve_success_inv.
  unfold getColumnIndices in Hm.
  rewrite (getColumnIndices_indexFold columnType headers ∅ 0 Hall) in Hm.
  by injection Hm.
Qed.
End ResolverPositions.

(** X11. In the map the resolver returns, the position of a name is the
    position of the last header cell with that text, so every position
    points at a header cell of that name and no two names share a
    position. *)
Theorem getColumnIndices_positions (headers : list string)
    (columnType : gmap string TypeName) (m : gmap string nat) :
  getColumnIndices headers columnType = Normal m ->
  (forall h i, m !! h = Some i ->
     headers !! i = Some h
     /\ forall j, (i < j)%nat -> headers !! j <> Some h)
  /\ (forall h h' i, m !! h = Some i -> m !! h' = Some i -> h = h').
Proof.
  intros ->%getColumnIndices_is_indexFold.
  assert (forall h i, indexFold ∅ 0 headers !! h = Some i ->
            headers !! i = Some h
            /\ forall j, (i < j)%nat -> headers !! j <> Some h) as Hpos.
  { intros h i [(j & -> & Hj & Hlast)|[Hacc _]]%indexFold_lookup; [done|].
    by rewrite lookup_empty in Hacc. }
  split; [done|].
  intros h h' i [Hh _]%Hpos [Hh' _]%Hpos. congruence.
Qed.

(** ** More on the transaction runner *)

(** X12. The runner never rolls back.  With the lock acquired: when a
    session fails to open, the sheets are as before and the outcome is the
    same for every procedure (none is invoked); when every session opens,
    the heap after the call is the heap the procedure left, whether it
    returned or threw, so what it committed before throwing stays
    written. *)
Theorem useSheetQuery_no_rollback {T : Type}
    (proc : list SheetQuery -> SE Heap T) (configs : list SheetQueryConfig)
    (options : option Options) (w : World) :
  busyFor (lock w) <= effectiveTimeouts options ->
  (forall t h1,
     mapM createSheetQuery configs (heap w) = (Abrupt t, h1) ->
     sheets (heap (snd (useSheetQuery proc configs options w))) = sheets (heap w)
     /\ fst (useSheetQuery proc configs options w) = Normal (Err (asError t))
     /\ forall proc' : list SheetQuery -> SE Heap T,
          useSheetQuery proc' configs options w = useSheetQuery proc configs options w)
  /\ (forall qs h1 o h2,
        mapM createSheetQuery configs (heap w) = (Normal qs, h1) ->
        proc qs h1 = (o, h2) ->
        heap (snd (useSheetQuery proc configs options w)) = h2).
Proof.
  intros Hfree.
  assert (forall p : list SheetQuery -> SE Heap T,
            useSheetQuery p configs options w
            = let '(o1, w1) :=
                (do queries <- liftHeap (mapM createSheetQuery configs);
                 do value <- liftHeap (p queries);
                 ret (Ok (E := Error) value))%se
                  {| heap := heap w;
                     lock := {| busyFor := busyFor (lock w); hasLock := true;
                                calls := WaitLock (effectiveTimeouts options) true
                                         :: calls (lock w) |} |} in
              (match o1 with
               | Normal r => Normal r
               | Abrupt t => fst (catchClause (T := T) t w1)
               end,
               snd (releaseLock w1))) as Hrun.
  { intros p. rewrite useSheetQuery_unfold. unfold bind at 1, waitLock.
    destruct (Z.leb_spec (busyFor (lock w)) (effectiveTimeouts options)); [done|lia]. }
  split.
  - intros t h1 Hsetup.
    assert (forall p : list SheetQuery -> SE Heap T,
              useSheetQuery p configs options w
              = (Normal (Err (asError t)),
                 {| heap := h1;
                    lock := {| busyFor := busyFor (lock w); hasLock := false;
                               calls := ReleaseLock
                                        :: WaitLock (effectiveTimeouts options) true
                                        :: calls (lock w) |} |})) as Hfail.
    { intros p. rewrite Hrun. unfold bind, liftHeap. cbn [heap]. rewrite Hsetup.
      by apply mapM_createSheetQuery_throws_Error in Hsetup as [err ->]. }
    split_and!.
    + rewrite Hfail. cbn. by eapply mapM_createSheetQuery_sheets.
    + by rewrite Hfail.
    + intros proc'. by rewrite !Hfail.
  - intros qs h1 o h2 Hsetup Hproc. rewrite Hrun. unfold bind, liftHeap.
    cbn [heap]. rewrite Hsetup. cbn [heap]. rewrite Hproc. by destruct o.
Qed.

(** ** Default values *)

(** X13. [intoDefaultValue] returns a value exactly for the seven type
    names, that value is of the type named, and on any other string it
    throws "Unable to convert to type". *)
Theorem intoDefaultValue_type (typeName : string) :
  (forall v, intoDefaultValue typeName = Normal v -> ToTypeName v = typeName)
  /\ ((exists v, intoDefaultValue typeName = Normal v)
      <-> exists t : TypeName, typeNameString t = typeName)
  /\ ((forall t : TypeName, typeNameString t <> typeName) ->
      intoDefaultValue typeName
      = Abrupt (ThrowError (UserError "Error" "Unable to convert to type"))).
Proof.
  unfold intoDefaultValue. split_and!.
  - intros v. repeat case_decide; intros [= <-]; done.
  - split.
    + intros [v Hv]. repeat case_decide; try discriminate Hv; subst typeName.
      * by exists TString.
      * by exists TNumber.
      * by exists TBoolean.
      * by exists TUndefined.
      * by exists TSymbol.
      * by exists TObject.
      * by exists TBigint.
    + intros [[] <-]; cbn; by eexists.
  - intros Hnone. repeat case_decide; try done; subst typeName.
    + by destruct (Hnone TString).
    + by destruct (Hnone TNumber).
    + by destruct (Hnone TBoolean).
    + by destruct (Hnone TUndefined).
    + by destruct (Hnone TSymbol).
    + by destruct (Hnone TObject).
    + by destruct (Hnone TBigint).
Qed.

(** ** The row codec of spread-sheet-query/index.ts *)

Section RawRows.
Variable columnIndices : gmap string nat.
Implicit Types (acc : RawRow) (l : list (string * SheetValue)).

Lemma arrayGet_arraySet_eq (cs : list SheetValue) i v :
  arrayGet (arraySet cs i v) i = v.
Proof.
  unfold arrayGet, arraySet. destruct (Nat.ltb_spec i (length cs)).
  - by rewrite list_lookup_insert_eq.
  - rewrite lookup_app_r by lia. rewrite lookup_app_r by (rewrite length_replicate; lia).
    rewrite length_replicate. by replace (i - length cs - (i - length cs))%nat with 0%nat by lia.
Qed.

Lemma arrayGet_arraySet_ne (cs : list SheetValue) i j v :
  i <> j -> arrayGet (arraySet cs i v) j = arrayGet cs j.
Proof.
  intros Hne. unfold arrayGet, arraySet. destruct (Nat.ltb_spec i (length cs)).
  - by rewrite list_lookup_insert_ne.
  - destruct (decide (j < length cs)%nat).
    + by rewrite lookup_app_l.
    + rewrite (lookup_ge_None_2 cs j) by lia. rewrite lookup_app_r by lia.
      destruct (decide (j < i)%nat).
      * rewrite lookup_app_l by (rewrite length_replicate; lia).
        by rewrite lookup_replicate_2 by lia.
      * rewrite lookup_ge_None_2; [done|].
        rewrite length_app, length_replicate. cbn. lia.
Qed.

Hypothesis injective : forall k k' i,
  columnIndices !! k = Some i -> columnIndices !! k' = Some i -> k = k'.

Lemma rawValues_fold_other l acc k0 i0 :
  columnIndices !! k0 = Some i0 ->
  k0 ∉ l.*1 ->
  arrayGet (cells (foldl (rawValuesStep columnIndices) acc l)) i0
  = arrayGet (cells acc) i0.
Proof.
  intros Hk0. revert acc. induction l as [|[k v] l IH]; intros acc Hnin; [done|].
  cbn [foldl]. rewrite IH.
  - unfold rawValuesStep. cbn [fst snd].
    destruct (columnIndices !! k) as [i|] eqn:Hk; [|done]. cbn [cells].
    apply arrayGet_arraySet_ne. intros ->. apply Hnin. cbn.
    rewrite (injective k k0 i0 Hk Hk0). by left.
  - intros ?. apply Hnin. cbn. by right.
Qed.

Lemma rawValues_fold_entry l acc k0 i0 v0 :
  columnIndices !! k0 = Some i0 ->
  NoDup l.*1 ->
  (k0, v0) ∈ l ->
  arrayGet (cells (foldl (rawValuesStep columnIndices) acc l)) i0 = v0.
Proof.
  intros Hk0. revert acc. induction l as [|[k v] l IH]; intros acc Hnd;
    [by intros ?%elem_of_nil|].
  cbn in Hnd. apply NoDup_cons in Hnd as [Hk Hnd].
  intros [[= <- <-]|Hin]%elem_of_cons; cbn [foldl].
  - rewrite (rawValues_fold_other l _ k0 i0 Hk0 Hk). unfold rawValuesStep. cbn [fst snd].
    rewrite Hk0. cbn [cells]. apply arrayGet_arraySet_eq.
  - by apply IH.
Qed.
End RawRows.

Section FakeRecords.
Implicit Types (fake : string -> SheetValue) (columnTypes : gmap string TypeName).

Lemma fakeRecord_fold_lookup fake (keys : list string) (acc : SheetRecord) k :
  foldl (fun acc k => <[k := fake k]> acc) acc keys !! k
  = if decide (k ∈ keys) then Some (fake k) else acc !! k.
Proof.
  revert acc. induction keys as [|k' keys IH]; intros acc; cbn [foldl].
  - by rewrite decide_False by (by intros ?%elem_of_nil).
  - rewrite IH. destruct (decide (k ∈ keys)) as [Hin|Hnin].
    + by rewrite decide_True by (by right).
    + destruct (decide (k = k')) as [->|Hne].
      * rewrite decide_True by left. by rewrite lookup_insert_eq.
      * rewrite decide_False by (by intros [?|?]%elem_of_cons).
        by rewrite lookup_insert_ne.
Qed.

Lemma fakeRecordIntoRecord_lookup fake columnTypes k :
  fakeRecordIntoRecord fake columnTypes !! k
  = match columnTypes !! k with Some _ => Some (fake k) | None => None end.
Proof.
  unfold fakeRecordIntoRecord. rewrite fakeRecord_fold_lookup, lookup_empty.
  destruct (columnTypes !! k) as [t|] eqn:Hk.
  - rewrite decide_True; [done|]. apply list_elem_of_fmap. exists (k, t).
    split; [done|]. by apply elem_of_map_to_list.
  - rewrite decide_False; [done|].
    intros ([k' t] & -> & Hin%elem_of_map_to_list)%list_elem_of_fmap.
    cbn in Hk. congruence.
Qed.
End FakeRecords.

(** X14. In spread-sheet-query/index.ts a record is read through the
    resolved column index map: the record [fakeRecordIntoRecord] builds from
    a row has exactly the schema's column names as keys, and under each of
    them the row's cell at the position the map gives that name. *)
Theorem fakeRecordIntoRecord_reads_index_map
    (columnIndices : gmap string nat) (columnTypes : gmap string TypeName)
    (row : list SheetValue) :
  let record :=
    fakeRecordIntoRecord
      (getter columnIndices {| cells := row; undefinedProperty := None |})
      columnTypes in
  dom record = dom columnTypes
  /\ forall k i, is_Some (columnTypes !! k) -> columnIndices !! k = Some i ->
       record !! k = Some (arrayGet row i).
Proof.
  cbn zeta. split.
  - apply set_eq. intros k. rewrite !elem_of_dom, fakeRecordIntoRecord_lookup.
    destruct (columnTypes !! k) as [t|].
    + split; intros _; by eexists.
    + split; intros [? [=]].
  - intros k i [t Ht] Hi. rewrite fakeRecordIntoRecord_lookup, Ht.
    unfold getter. by rewrite Hi.
Qed.

(** X15. Round trip of the row codec of spread-sheet-query/index.ts: when
    the resolver succeeded on the header, every declared column occurs in
    the header and the keys of a record are the declared columns, reading
    the row that [recordIntoRawValues] builds from the record gives the
    record back. *)
Theorem recordIntoRawValues_roundtrip
    (headers : list string) (columnTypes : gmap string TypeName)
    (columnIndices : gmap string nat) (record : SheetRecord) :
  getColumnIndices headers columnTypes = Normal columnIndices ->
  (forall k, is_Some (columnTypes !! k) -> k ∈ headers) ->
  dom record = dom columnTypes ->
  fakeRecordIntoRecord
    (getter columnIndices (recordIntoRawValues record columnIndices)) columnTypes
  = record.
Proof.
  intros Hresolve Hpresent Hdom.
  assert (forall k k' i, columnIndices !! k = Some i ->
                         columnIndices !! k' = Some i -> k = k') as Hinj.
  { pose proof Hresolve as ->%getColumnIndices_is_indexFold.
    intros k k' i [(j & -> & Hj & _)|[H _]]%indexFold_lookup
                  [(j' & Heq & Hj' & _)|[H' _]]%indexFold_lookup;
      rewrite ?lookup_empty in *; try done.
    cbn in Heq. subst j'. congruence. }
  apply resolve_success_inv in Hresolve as [_ Hmapped].
  apply map_eq. intros k. rewrite fakeRecordIntoRecord_lookup.
  destruct (columnTypes !! k) as [t|] eqn:Hk.
  - assert (k ∈ dom record) as [v Hv]%elem_of_dom
      by (rewrite Hdom; apply elem_of_dom; by eexists).
    destruct (proj2 (Hmapped k)) as [i Hi]; [left; apply Hpresent; by eexists|].
    rewrite Hv. f_equal. unfold getter, recordIntoRawValues. rewrite Hi.
    apply (rawValues_fold_entry columnIndices Hinj _ _ k i v Hi).
    + apply NoDup_fst_map_to_list.
    + by apply elem_of_map_to_list.
  - symmetry. apply not_elem_of_dom. rewrite Hdom. by apply not_elem_of_dom.
Qed.

(** ** Headers that are accepted *)

Section Greedy.
Implicit Types (k : Cont) (s w rest : list ascii) (c : Captures).

Lemma rmatch_Class_cons (p : ascii -> bool) k pos a s c :
  p a = true -> rmatch (Class p) k pos (a :: s) c = k (S pos) s c.
Proof. cbn [rmatch]. by intros ->. Qed.

Lemma starLoop_class_firstSplit (p : ascii -> bool) k fuel pos w b rest c :
  Forall (fun a => p a = true) w -> p b = false -> (length w <= fuel)%nat ->
  starLoop (rmatch (Class p)) k fuel pos (w ++ b :: rest) c
  = firstSplit k pos w (b :: rest) c.
Proof.
  intros Hw Hb. revert fuel pos.
  induction Hw as [|a w Ha _ IH]; intros fuel pos Hfuel.
  - destruct fuel; cbn; [done|]. by rewrite Hb.
  - destruct fuel as [|fuel]; [cbn in Hfuel; lia|].
    cbn [starLoop app rmatch firstSplit]. rewrite Ha.
    destruct (Nat.ltb_spec (length (w ++ b :: rest)) (length (a :: w ++ b :: rest)))
      as [_|Hlen]; [|cbn in Hlen; lia].
    rewrite IH by (cbn in Hfuel; lia). done.
Qed.

Lemma rmatch_star_class (p : ascii -> bool) k pos w b rest c :
  Forall (fun a => p a = true) w -> p b = false ->
  rmatch (Star (Class p)) k pos (w ++ b :: rest) c
  = firstSplit k pos w (b :: rest) c.
Proof.
  intros Hw Hb. cbn [rmatch]. apply starLoop_class_firstSplit; [done | done |].
  rewrite length_app. lia.
Qed.

Lemma rmatch_star_class_stop (p : ascii -> bool) k pos b rest c :
  p b = false -> rmatch (Star (Class p)) k pos (b :: rest) c = k pos (b :: rest) c.
Proof.
  intros Hb. exact (rmatch_star_class p k pos [] b rest c (Forall_nil_2 _) Hb).
Qed.

Lemma firstSplit_longest k pos w rest c res :
  k (pos + length w)%nat rest c = Some res -> firstSplit k pos w rest c = Some res.
Proof.
  revert pos. induction w as [|a w IH]; intros pos; cbn [firstSplit length].
  - by rewrite Nat.add_0_r.
  - intros Hk. rewrite IH; [done|].
    by replace (S pos + length w)%nat with (pos + S (length w))%nat by lia.
Qed.

Lemma firstSplit_snoc k pos w x rest c :
  k (pos + length w + 1)%nat rest c = None ->
  firstSplit k pos (w ++ [x]) rest c = firstSplit k pos w (x :: rest) c.
Proof.
  revert pos. induction w as [|a w IH]; intros pos; cbn [firstSplit length app].
  - rewrite Nat.add_0_r, Nat.add_1_r. by intros ->.
  - intros Hk. rewrite IH.
    + by rewrite <- (assoc_L (++)).
    + by replace (S pos + length w + 1)%nat with (pos + S (length w) + 1)%nat by lia.
Qed.

(** A group around alternatives that consume [w] and nothing else. *)
Lemma rmatch_Group_word n r k pos w s' c :
  (forall k' c', rmatch r k' pos (w ++ s') c' = k' (length w + pos)%nat s' c') ->
  rmatch (Group n r) k pos (w ++ s') c = k (length w + pos)%nat s' (<[n := w]> c).
Proof.
  intros Hr. cbn [rmatch]. rewrite Hr.
  replace (length w + pos - pos)%nat with (length w) by lia.
  by rewrite take_app_length.
Qed.

Lemma typeAlternatives_word (ty : list ascii) k pos s' c :
  string_of_list_ascii ty ∈ ["string"; "number"; "boolean"] ->
  rmatch typeAlternatives k pos (ty ++ s') c = k (length ty + pos)%nat s' c.
Proof.
  intros Hty.
  assert (ty = list_ascii_of_string "string" \/ ty = list_ascii_of_string "number"
          \/ ty = list_ascii_of_string "boolean") as [->|[->| ->]].
  { rewrite <- (list_ascii_of_string_of_list_ascii ty).
    apply list_elem_of_In in Hty. cbn in Hty.
    destruct Hty as [<-|[<-|[<-|[]]]]; auto. }
  all: cbn; by destruct (k _ s' c).
Qed.

(** The part of [HEADER_REGEX] after the name, on [ <type>]. *)
Lemma header_tail (ty : list ascii) pos c :
  string_of_list_ascii ty ∈ ["string"; "number"; "boolean"] ->
  rmatch
    (Cat (Plus (Class isWhiteSpace))
      (Cat (Class (fun a => bool_decide (a = lt_sign)))
        (Cat (Group 2 typeAlternatives)
          (Cat (Class (fun a => bool_decide (a = gt_sign)))
            (Cat (Star (Class isWhiteSpace)) Eol)))))
    (fun _ _ c => Some c) pos (" "%char :: lt_sign :: ty ++ [gt_sign]) c
  = Some (<[2%nat := ty]> c).
Proof.
  intros Hty. unfold Plus. rewrite !rmatch_Cat.
  rewrite rmatch_Class_cons by done.
  rewrite rmatch_star_class_stop by done.
  rewrite rmatch_Cat, rmatch_Class_cons by done.
  rewrite rmatch_Cat.
  rewrite (rmatch_Group_word 2 typeAlternatives _ _ ty [gt_sign])
    by (intros; by apply typeAlternatives_word).
  reflexivity.
Qed.

Lemma list_ascii_of_string_append (s1 s2 : string) :
  list_ascii_of_string (String.append s1 s2)
  = list_ascii_of_string s1 ++ list_ascii_of_string s2.
Proof. induction s1 as [|a s1 IH]; simpl; [done | by f_equal]. Qed.

(** [HEADER_REGEX] matches [name <type>] and captures the name and the
    type. *)
Lemma HEADER_REGEX_canonical (a : ascii) (nm' ty : list ascii) :
  isWhiteSpace a = false ->
  Forall (fun b => notLt b = true) (a :: nm') ->
  string_of_list_ascii ty ∈ ["string"; "number"; "boolean"] ->
  rmatch
    (Cat (Star (Class isWhiteSpace))
      (Cat (Group 1 (Plus (Class notLt)))
        (Cat (Plus (Class isWhiteSpace))
          (Cat (Class (fun a => bool_decide (a = lt_sign)))
            (Cat (Group 2 typeAlternatives)
              (Cat (Class (fun a => bool_decide (a = gt_sign)))
                (Cat (Star (Class isWhiteSpace)) Eol)))))))
    (fun _ _ c => Some c) 0%nat
    ((a :: nm') ++ " "%char :: lt_sign :: ty ++ [gt_sign]) ∅
  = Some (<[2%nat := ty]> (<[1%nat := a :: nm']> ∅)).
Proof.
  intros Ha Hnm Hty. apply Forall_cons in Hnm as [Ha' Hnm'].
  rewrite rmatch_Cat.
  cbn [app]. rewrite rmatch_star_class_stop by done.
  rewrite rmatch_Cat.
  change (rmatch (Group 1 (Plus (Class notLt))) ?k 0%nat ?s ?c)
    with (rmatch (Class notLt)
            (rmatch (Star (Class notLt))
               (fun pos' s' c' => k pos' s' (<[1%nat := take (pos' - 0) s]> c')))
            0%nat s c).
  rewrite rmatch_Class_cons by done.
  replace (nm' ++ " "%char :: lt_sign :: ty ++ [gt_sign])
    with ((nm' ++ [" "%char]) ++ lt_sign :: ty ++ [gt_sign])
    by (by rewrite <- (assoc_L (++))).
  assert (Forall (fun b => notLt b = true) (nm' ++ [" "%char])) as Hrun
    by (apply Forall_app; split; [done | by repeat constructor]).
  assert (notLt lt_sign = false) as Hlt by reflexivity.
  rewrite (rmatch_star_class notLt _ _ _ lt_sign _ _ Hrun Hlt).
  rewrite firstSplit_snoc by (by rewrite rmatch_Cat).
  apply firstSplit_longest.
  replace (1 + length nm' - 0)%nat with (length (a :: nm')) by (cbn; lia).
  rewrite <- (assoc_L (++)). cbn [app].
  change (a :: nm' ++ " "%char :: lt_sign :: ty ++ [gt_sign])
    with ((a :: nm') ++ " "%char :: lt_sign :: ty ++ [gt_sign]).
  rewrite take_app_length. by apply header_tail.
Qed.
End Greedy.

(** X16. The header cell [name <type>] of a schema column is accepted when
    the column's type is [string], [number] or [boolean] and its name is not
    empty, holds no ['<'] and does not start with white space; a header row
    made of such cells, for any columns of the schema in any order, passes
    validation. *)
Theorem validateColumnTypes_accepts_canonical
    (columns : list ColumnType) (body : DataTable) (cts : list ColumnType) :
  Forall (fun ct => ct ∈ cts
                    /\ plainName (name ct) = true
                    /\ type ct ∈ [TString; TNumber; TBoolean]) columns ->
  validateColumnTypes (map (fun ct => VStr (canonicalHeader ct)) columns :: body) cts
  = Normal tt.
Proof.
  intros Hcols. cbn [validateColumnTypes]. apply forEach_Normal, Forall_fmap.
  eapply Forall_impl; [exact Hcols|]. clear Hcols.
  intros ct (Hin & Hplain & Htype). cbn. unfold validateHeader.
  unfold HEADER_REGEX. rewrite exec_Bol. unfold canonicalHeader.
  rewrite !list_ascii_of_string_append.
  unfold plainName in Hplain.
  destruct (list_ascii_of_string (name ct)) as [|a nm'] eqn:Hname; [done|].
  apply andb_true_iff in Hplain as [Ha%negb_true_iff Hnm].
  rewrite forallb_forall in Hnm.
  change (list_ascii_of_string " <") with [" "%char; lt_sign].
  change (list_ascii_of_string ">") with [gt_sign]. cbn [app].
  assert (string_of_list_ascii (list_ascii_of_string (typeNameString (type ct)))
          ∈ ["string"; "number"; "boolean"]) as Hty.
  { rewrite string_of_list_ascii_of_string.
    apply list_elem_of_In in Htype. cbn in Htype.
    destruct Htype as [<-|[<-|[<-|[]]]]; cbn; repeat constructor. }
  assert (Forall (fun b => notLt b = true) (a :: nm')) as Hnm'.
  { apply Forall_forall. intros b Hb. apply Hnm. by apply list_elem_of_In. }
  pose proof (HEADER_REGEX_canonical a nm' _ Ha Hnm' Hty) as Hre.
  cbn [app] in Hre. rewrite Hre. clear Hre.
  cbn [matchedGroup]. rewrite lookup_insert_ne by done.
  rewrite !lookup_insert_eq. cbn [fmap option_fmap option_map].
  rewrite <- Hname, !string_of_list_ascii_of_string.
  destruct (find_Some_elem_of
              (fun t => bool_decide (typeNameString (type t) = typeNameString (type ct))
                        && bool_decide (name t = name ct)) cts ct Hin) as [y ->];
    [|done].
  by rewrite !bool_decide_eq_true_2.
Qed.

(** ** Committing what was read *)

Section Unchanged.
Implicit Types (grid : DataTable).

Lemma overlayRows_same grid : overlayRows grid grid = grid.
Proof.
  induction grid as [|row grid IH]; cbn; [done|]. rewrite IH. f_equal.
  unfold overlayRow. by rewrite drop_all, app_nil_r.
Qed.

Lemma rectangular_same grid (width : nat) :
  Forall (fun row => length row = width) grid -> rectangular grid = grid.
Proof.
  intros Hwidth. unfold rectangular.
  assert (Forall (fun row : list SheetValue =>
                    (length row
                     <= foldr (fun row w => Nat.max (length row) w) 0 grid)%nat) grid)
    as Hmax.
  { clear Hwidth. induction grid as [|row grid IH]; cbn [foldr]; constructor.
    - apply Nat.le_max_l.
    - eapply Forall_impl; [exact IH|]. cbn beta. intros row' Hrow'.
      etransitivity; [exact Hrow' | apply Nat.le_max_r]. }
  assert (foldr (fun (row : list SheetValue) w => Nat.max (length row) w) 0%nat grid
          <= width)%nat as Hle.
  { clear Hmax. induction Hwidth as [|row grid Hrow _ IH]; cbn [foldr]; [lia|].
    apply Nat.max_lub; [lia | exact IH]. }
  rewrite <- (list_fmap_id grid) at 2. apply Forall_fmap_ext.
  rewrite Forall_forall in Hwidth, Hmax. apply Forall_forall. intros row Hrow.
  specialize (Hwidth row Hrow). specialize (Hmax row Hrow). cbn.
  replace (_ - length row)%nat with 0%nat by lia. cbn. apply app_nil_r.
Qed.

Lemma writeRows_same_body grid (width : nat) :
  grid <> [] ->
  Forall (fun row => length row = width) grid ->
  writeRows grid 1 (drop 1 grid) = grid.
Proof.
  intros Hne Hwidth. unfold writeRows.
  destruct grid as [|header body]; [done|]. cbn [length Nat.sub replicate].
  rewrite app_nil_r. cbn [take drop app]. rewrite take_0, drop_0. cbn [app].
  rewrite overlayRows_same. by eapply rectangular_same.
Qed.
End Unchanged.

(** X17. Committing a session right after it was opened leaves the heap as
    it is, provided the schema's column names are distinct and the grid of
    the sheet has at least one body row and is as wide as the schema: what
    was decoded is written back cell for cell. *)
Theorem commit_after_open_changes_nothing
    (config : SheetQueryConfig) (h h1 : Heap) (q : SheetQuery) :
  createSheetQuery config h = (Normal q, h1) ->
  NoDup (columnNames (columnTypes config)) ->
  columnTypes config <> [] ->
  (forall sheet, sheet ∈ sheets h -> getSheetId sheet = id config ->
     (2 <= length (getValues sheet))%nat
     /\ Forall (fun row => length row = length (columnTypes config)) (getValues sheet)) ->
  commit q h1 = (Normal tt, h1).
Proof.
  intros (ref & sheet & Hfind & _ & -> & ->)%createSheetQuery_inv Hnd Hcts Hgrid.
  apply list_find_Some in Hfind as (Href & Hid & _).
  destruct (Hgrid sheet) as [Hrows Hwidth];
    [by eapply list_elem_of_lookup_2 | done |].
  cbn [commit].
  set (h1 := {| sheets := sheets h;
                variables := variables h
                             ++ [decode (columnTypes config) (drop 1 (getValues sheet))] |}).
  assert (getRecords (length (variables h)) h1
          = decode (columnTypes config) (drop 1 (getValues sheet))) as Hget.
  { unfold getRecords. subst h1. cbn [variables].
    by rewrite lookup_app_r, Nat.sub_diag by done. }
  unfold commitImpl. rewrite Hget.
  rewrite encode_decode_same_width; [|done|by apply Forall_drop].
  destruct (getValues sheet) as [|header [|row0 body]] eqn:Hvalues;
    [cbn in Hrows; lia | cbn in Hrows; lia |].
  cbn [drop]. unfold setValuesFromRow2.
  assert (length row0 = length (columnTypes config)) as ->.
  { apply Forall_cons in Hwidth as [_ Hwidth]. by apply Forall_cons in Hwidth as [? _]. }
  destruct (columnTypes config) as [|ct cts'] eqn:Hcts'; [done|].
  cbn [length Nat.ltb Nat.leb orb]. subst h1. cbn [sheets variables]. do 2 f_equal.
  apply list_eq. intros r. destruct (decide (r = ref)) as [->|Hne].
  - rewrite list_lookup_alter_eq, Href. cbn. f_equal.
    destruct sheet as [sid grid]. cbn in *. f_equal. subst grid.
    apply (writeRows_same_body (header :: row0 :: body) (S (length cts'))); [done|].
    exact Hwidth.
  - by rewrite list_lookup_alter_ne.
Qed.

(** ** These theorems at work on the example *)

Lemma set_append_then_read_witness :
  createSheetQuery groupQueryConfig groupHeap = (Normal groupQuery, groupHeapOpened)
  /\ (length (variables groupHeapOpened) <= length (variables groupHeapOpened))%nat
  /\ fst (read groupQuery groupHeapOpened) = Normal groupRecords
  /\ fst (read groupQuery
            (snd (append groupQuery [groupRecord "1234" "bbb" 2] groupHeapOpened)))
     = Normal (groupRecords ++ [groupRecord "1234" "bbb" 2]).
Proof.
  assert (createSheetQuery groupQueryConfig groupHeap
          = (Normal groupQuery, groupHeapOpened)) as H1 by (vm_compute; reflexivity).
  assert (length (variables groupHeapOpened)
          <= length (variables groupHeapOpened))%nat as H2 by lia.
  assert (fst (read groupQuery groupHeapOpened) = Normal groupRecords) as H3
    by reflexivity.
  split_and!; [exact H1 | exact H2 | exact H3 |].
  exact (proj1 (proj2 (set_append_then_read groupQueryConfig groupHeap groupHeapOpened
                         groupHeapOpened groupQuery groupRecords
                         [groupRecord "1234" "bbb" 2] H1 H2 H3))).
Defined.

Lemma deleteIf_composes_witness :
  (0 < length (variables groupHeapOpened))%nat
  /\ snd (deleteIfImpl 0 (fun _ => false)
            (snd (deleteIfImpl 0 gradesAboveOne groupHeapOpened)))
     = snd (deleteIfImpl 0 (fun r => gradesAboveOne r || false) groupHeapOpened).
Proof.
  assert (0 < length (variables groupHeapOpened))%nat as H by (cbn; lia).
  split; [exact H|].
  exact (proj1 (deleteIf_composes 0 gradesAboveOne (fun _ => false) []
                  groupHeapOpened H)).
Defined.

Lemma sessions_are_isolated_witness :
  mapM createSheetQuery [groupQueryConfig; groupQueryConfig] groupHeap
  = (Normal [groupQuery; groupQuery1], groupHeapOpenedTwice)
  /\ fst (read groupQuery1 (snd (set groupQuery [] groupHeapOpenedTwice)))
     = fst (read groupQuery1 groupHeapOpenedTwice).
Proof.
  assert (mapM createSheetQuery [groupQueryConfig; groupQueryConfig] groupHeap
          = (Normal [groupQuery; groupQuery1], groupHeapOpenedTwice)) as H
    by (vm_compute; reflexivity).
  split; [exact H|].
  assert (0 <> 1)%nat as Hne by lia.
  exact (proj1 (sessions_are_isolated _ _ _ _ 0 1 groupQuery groupQuery1 H Hne
                  eq_refl eq_refl groupHeapOpenedTwice [] gradesAboveOne)).
Defined.


Lemma decode_shape_witness :
  drop 1 (getValues groupSheet) !! 0%nat = Some [VStr "0123"; VStr "aaa"; VNum 1]
  /\ GROUP_COLUMN_TYPES !! 0%nat = Some (createColumnType "Group ID" TString)
  /\ exists record,
       decode GROUP_COLUMN_TYPES (drop 1 (getValues groupSheet)) !! 0%nat = Some record
       /\ record !! "Group ID" = Some (VStr "0123").
Proof.
  split_and!; [reflexivity | reflexivity |].
  destruct (proj2 (proj2 (decode_shape GROUP_COLUMN_TYPES
                            (drop 1 (getValues groupSheet))))
              0%nat [VStr "0123"; VStr "aaa"; VNum 1] 0%nat
              (createColumnType "Group ID" TString) eq_refl eq_refl)
    as (record & Hrecord & Hget & _).
  - intros [|[|[|j']]] ct' Hlt; cbn; try lia; intros [= <-]; discriminate.
  - exists record. split; [exact Hrecord | exact Hget].
Defined.

Lemma encode_decode_rows_witness :
  NoDup (columnNames GROUP_COLUMN_TYPES)
  /\ Forall (fun row => length row = length GROUP_COLUMN_TYPES)
            (drop 1 (getValues groupSheet))
  /\ encode GROUP_COLUMN_TYPES
       (decode GROUP_COLUMN_TYPES (drop 1 (getValues groupSheet)))
     = drop 1 (getValues groupSheet).
Proof.
  assert (NoDup (columnNames GROUP_COLUMN_TYPES)) as H1
    by (apply (bool_decide_unpack _); vm_compute; reflexivity).
  assert (Forall (fun row => length row = length GROUP_COLUMN_TYPES)
                 (drop 1 (getValues groupSheet))) as H2
    by (repeat constructor).
  split_and!; [exact H1 | exact H2 |].
  exact (proj2 (encode_decode_rows GROUP_COLUMN_TYPES (drop 1 (getValues groupSheet)))
           H1 H2).
Defined.

Lemma commit_frame_witness :
  sheets (snd (commitImpl 0 0 GROUP_COLUMN_TYPES groupHeapOpenedTwice)) !! 1%nat
  = sheets groupHeapOpenedTwice !! 1%nat
  /\ fst (commitImpl 0 0 GROUP_COLUMN_TYPES emptyGroupHeapOpened)
     = Abrupt (ThrowError (TypeError "length"))
  /\ snd (commitImpl 0 0 GROUP_COLUMN_TYPES emptyGroupHeapOpened) = emptyGroupHeapOpened.
Proof.
  assert (fst (commitImpl 0 0 GROUP_COLUMN_TYPES emptyGroupHeapOpened)
          = Abrupt (ThrowError (TypeError "length"))) as H by reflexivity.
  assert (1 <> 0)%nat as Hne by lia.
  split_and!; [| exact H |].
  - exact (proj1 (proj2 (proj2 (commit_frame 0 0 GROUP_COLUMN_TYPES
                                  groupHeapOpenedTwice))) 1%nat Hne).
  - exact (proj2 (proj2 (proj2 (commit_frame 0 0 GROUP_COLUMN_TYPES
                                  emptyGroupHeapOpened))) _ H).
Defined.

Lemma commit_writes_working_set_witness :
  sheets groupHeapOpened !! 0%nat = Some groupSheet
  /\ getRecords 0 groupHeapOpened <> []
  /\ GROUP_COLUMN_TYPES <> []
  /\ Forall (fun record => dom record = list_to_set (columnNames GROUP_COLUMN_TYPES))
            (getRecords 0 groupHeapOpened)
  /\ exists sheet',
       commitImpl 0 0 GROUP_COLUMN_TYPES groupHeapOpened
       = (Normal tt, {| sheets := <[0%nat := sheet']> (sheets groupHeapOpened);
                        variables := variables groupHeapOpened |})
       /\ decode GROUP_COLUMN_TYPES
            (take (length (getRecords 0 groupHeapOpened)) (drop 1 (getValues sheet')))
          = getRecords 0 groupHeapOpened.
Proof.
  assert (sheets groupHeapOpened !! 0%nat = Some groupSheet) as H1 by reflexivity.
  assert (getRecords 0 groupHeapOpened <> []) as H2 by discriminate.
  assert (GROUP_COLUMN_TYPES <> []) as H3 by discriminate.
  assert (Forall (fun record : SheetRecord =>
                    dom record = list_to_set (columnNames GROUP_COLUMN_TYPES))
                 (getRecords 0 groupHeapOpened)) as H4
    by (repeat constructor; vm_compute; reflexivity).
  split_and!; [exact H1 | exact H2 | exact H3 | exact H4 |].
  destruct (commit_writes_working_set 0 0 GROUP_COLUMN_TYPES groupHeapOpened
              groupSheet H1 H2 H3)
    as (sheet' & Hrun & _ & _ & _ & _ & _ & Hdecode).
  exists sheet'. split; [exact Hrun | exact (Hdecode H4)].
Defined.

Lemma validateColumnTypes_cells_only_witness :
  validateColumnTypes [groupHeader] GROUP_COLUMN_TYPES = Normal tt
  /\ validateColumnTypes
       [[VStr "Name <string>"; VStr "Group ID <string>"; VStr "Name <string>"];
        [VNum 7]]
       GROUP_COLUMN_TYPES
     = Normal tt.
Proof.
  assert (validateColumnTypes [groupHeader] GROUP_COLUMN_TYPES = Normal tt) as H
    by (vm_compute; reflexivity).
  split; [exact H|].
  apply (validateColumnTypes_cells_only groupHeader _ [] _
           GROUP_COLUMN_TYPES GROUP_COLUMN_TYPES H).
  - intros cell Hcell. apply list_elem_of_In in Hcell. apply list_elem_of_In.
    cbn in *. intuition.
  - intros ct Hct. exact Hct.
Defined.

Lemma getColumnIndices_positions_witness :
  getColumnIndices ["a"; "b"; "a"] abColumnTypes
  = Normal (<["a" := 2%nat]> (<["b" := 1%nat]> ∅))
  /\ ["a"; "b"; "a"] !! 2%nat = Some "a".
Proof.
  assert (getColumnIndices ["a"; "b"; "a"] abColumnTypes
          = Normal (<["a" := 2%nat]> (<["b" := 1%nat]> ∅))) as H
    by (vm_compute; reflexivity).
  split; [exact H|].
  exact (proj1 (proj1 (getColumnIndices_positions _ _ _ H) "a" 2%nat eq_refl)).
Defined.

Lemma useSheetQuery_no_rollback_witness :
  busyFor (lock (worldOf groupSheet freeLock)) <= effectiveTimeouts None
  /\ mapM createSheetQuery [groupQueryConfig] (heap (worldOf groupSheet freeLock))
     = (Normal [groupQuery], groupHeapOpened)
  /\ heap (snd (useSheetQuery commitThenThrow [groupQueryConfig] None
                  (worldOf groupSheet freeLock)))
     = snd (commitThenThrow [groupQuery] groupHeapOpened)
  /\ fst (useSheetQuery commitThenThrow [createQueryConfig 1000 GROUP_COLUMN_TYPES]
            None (worldOf groupSheet freeLock))
     = Normal (Err (NoSheetOfId 1000)).
Proof.
  assert (busyFor (lock (worldOf groupSheet freeLock)) <= effectiveTimeouts None) as H1
    by (vm_compute; discriminate).
  assert (mapM createSheetQuery [groupQueryConfig] (heap (worldOf groupSheet freeLock))
          = (Normal [groupQuery], groupHeapOpened)) as H2
    by (vm_compute; reflexivity).
  split_and!; [exact H1 | exact H2 | |].
  - exact (proj2 (useSheetQuery_no_rollback commitThenThrow [groupQueryConfig] None
                    (worldOf groupSheet freeLock) H1)
             [groupQuery] groupHeapOpened _ _ H2 (surjective_pairing _)).
  - assert (mapM createSheetQuery [createQueryConfig 1000 GROUP_COLUMN_TYPES]
              (heap (worldOf groupSheet freeLock))
            = (Abrupt (ThrowError (NoSheetOfId 1000)), groupHeap)) as H3
      by (vm_compute; reflexivity).
    exact (proj1 (proj2 (proj1 (useSheetQuery_no_rollback commitThenThrow
                                  [createQueryConfig 1000 GROUP_COLUMN_TYPES] None
                                  (worldOf groupSheet freeLock) H1) _ _ H3))).
Defined.

Lemma intoDefaultValue_type_witness :
  intoDefaultValue "bigint" = Normal (JsBigint 0)
  /\ ToTypeName (JsBigint 0) = "bigint"
  /\ intoDefaultValue "Date"
     = Abrupt (ThrowError (UserError "Error" "Unable to convert to type")).
Proof.
  assert (intoDefaultValue "bigint" = Normal (JsBigint 0)) as H by reflexivity.
  split_and!; [exact H | |].
  - exact (proj1 (intoDefaultValue_type "bigint") _ H).
  - apply (proj2 (proj2 (intoDefaultValue_type "Date"))).
    intros []; discriminate.
Defined.

Lemma fakeRecordIntoRecord_reads_index_map_witness :
  is_Some (abColumnTypes !! "a")
  /\ (<["a" := 1%nat]> (<["b" := 0%nat]> ∅) : gmap string nat) !! "a" = Some 1%nat
  /\ fakeRecordIntoRecord
       (getter (<["a" := 1%nat]> (<["b" := 0%nat]> ∅))
               {| cells := [VNum 1; VStr "x"]; undefinedProperty := None |})
       abColumnTypes !! "a"
     = Some (VStr "x").
Proof.
  assert (is_Some (abColumnTypes !! "a")) as H1 by (by exists TString).
  assert ((<["a" := 1%nat]> (<["b" := 0%nat]> ∅) : gmap string nat) !! "a"
          = Some 1%nat) as H2 by reflexivity.
  split_and!; [exact H1 | exact H2 |].
  exact (proj2 (fakeRecordIntoRecord_reads_index_map
                  (<["a" := 1%nat]> (<["b" := 0%nat]> ∅)) abColumnTypes
                  [VNum 1; VStr "x"]) "a" 1%nat H1 H2).
Defined.

Lemma recordIntoRawValues_roundtrip_witness :
  getColumnIndices ["b"; "a"] abColumnTypes
  = Normal (<["a" := 1%nat]> (<["b" := 0%nat]> ∅))
  /\ dom abRecord = dom abColumnTypes
  /\ fakeRecordIntoRecord
       (getter (<["a" := 1%nat]> (<["b" := 0%nat]> ∅))
               (recordIntoRawValues abRecord (<["a" := 1%nat]> (<["b" := 0%nat]> ∅))))
       abColumnTypes
     = abRecord.
Proof.
  assert (getColumnIndices ["b"; "a"] abColumnTypes
          = Normal (<["a" := 1%nat]> (<["b" := 0%nat]> ∅))) as H1
    by (vm_compute; reflexivity).
  assert (dom abRecord = dom abColumnTypes) as H2 by (vm_compute; reflexivity).
  split_and!; [exact H1 | exact H2 |].
  apply (recordIntoRawValues_roundtrip ["b"; "a"] abColumnTypes _ abRecord H1);
    [|exact H2].
  intros k [t Hk]. unfold abColumnTypes in Hk.
  destruct (decide (k = "a")) as [->|Ha]; [by right; left|].
  destruct (decide (k = "b")) as [->|Hb]; [by left|].
  rewrite !lookup_insert_ne, lookup_empty in Hk by done. discriminate Hk.
Defined.

Lemma validateColumnTypes_accepts_canonical_witness :
  Forall (fun ct => ct ∈ GROUP_COLUMN_TYPES
                    /\ plainName (name ct) = true
                    /\ type ct ∈ [TString; TNumber; TBoolean])
         [createColumnType "Ave. Grades" TNumber; createColumnType "Name" TString]
  /\ validateColumnTypes
       [[VStr "Ave. Grades <number>"; VStr "Name <string>"]] GROUP_COLUMN_TYPES
     = Normal tt.
Proof.
  assert (Forall (fun ct => ct ∈ GROUP_COLUMN_TYPES
                            /\ plainName (name ct) = true
                            /\ type ct ∈ [TString; TNumber; TBoolean])
                 [createColumnType "Ave. Grades" TNumber;
                  createColumnType "Name" TString]) as H.
  { repeat constructor. }
  split; [exact H|].
  exact (validateColumnTypes_accepts_canonical _ [] GROUP_COLUMN_TYPES H).
Defined.

Lemma commit_after_open_changes_nothing_witness :
  createSheetQuery groupQueryConfig groupHeap = (Normal groupQuery, groupHeapOpened)
  /\ NoDup (columnNames (columnTypes groupQueryConfig))
  /\ columnTypes groupQueryConfig <> []
  /\ commit groupQuery groupHeapOpened = (Normal tt, groupHeapOpened).
Proof.
  assert (createSheetQuery groupQueryConfig groupHeap
          = (Normal groupQuery, groupHeapOpened)) as H1 by (vm_compute; reflexivity).
  assert (NoDup (columnNames (columnTypes groupQueryConfig))) as H2
    by (apply (bool_decide_unpack _); vm_compute; reflexivity).
  assert (columnTypes groupQueryConfig <> []) as H3 by discriminate.
  split_and!; [exact H1 | exact H2 | exact H3 |].
  apply (commit_after_open_changes_nothing groupQueryConfig groupHeap groupHeapOpened
           groupQuery H1 H2 H3).
  intros sheet ->%list_elem_of_singleton _. split; [cbn; lia | repeat constructor].
Defined.
